(** * crawler-for-llms: the crawl engine, the chunking pass and the array slicer

    A shallow embedding of [src/lib/crawler.ts] (class [Crawler]),
    [src/lib/seed.ts] (function [seed]) and [src/lib/utils.ts]
    (function [sliceIntoChunks]), with the properties of the design
    document proved over it.

    JavaScript numbers are modelled by [Z] (every number the code computes
    is an integer: array lengths, depths and their successors), strings by
    [string], [Set<string>] by [gset string], arrays by [list], object
    literals used as option bags by [gmap string JsValue].  A thrown
    exception (a rejected promise) is the [Throw] outcome. *)

From Equations Require Import Equations.
From stdpp Require Import gmap strings list sorting.

Local Open Scope Z_scope.

(** ** Outcomes: a normal completion or a thrown exception *)

Inductive outcome (A : Type) : Type :=
| Return (a : A)
| Throw.
Arguments Return {A} a.
Arguments Throw {A}.

(** ** Data model *)

(** [interface Page { url: string; content: string }] *)
Record Page := mkPage { url : string; content : string }.

(** The elements of [Crawler.queue]: [{ url: string; depth: number }]. *)
Record Entry := mkEntry { e_url : string; depth : Z }.

(** The private fields of [class Crawler]. *)
Record Crawler := mkCrawler {
  seen : gset string;
  pages : list Page;
  queue : list Entry;
  maxDepth : Z;
  maxPages : Z
}.

(** The objects pushed by [seed]: [{ url: page.url, content: chunk }]. *)
Record Document := mkDocument { doc_url : string; doc_content : string }.

(** What the global [fetch] followed by [response.text()] does for an
    address: either one of the two awaited promises rejects (network
    error, aborted or timed-out transport, malformed address), or a
    response with some HTTP status arrives and its body text is read. *)
Inductive FetchOutcome :=
| Rejected
| Responded (status : Z) (text : string).

(** Property values of the options object handed to the text splitter. *)
Inductive JsValue :=
| VUndefined
| VNum (n : Z)
| VBool (b : bool)
| VStr (s : string)
| VStrs (l : list string).

(** The machine state of a run: the crawler instance ([this]) and the log
    of the calls of [fetchPage] made at crawler.ts:42, each with the
    address fetched and the depth of the frontier entry being processed.
    The log is only written, never read, by the code below. *)
Record State := mkState { this : Crawler; fetches : list Entry }.

(** ** A state-and-exception monad for the methods of [Crawler] *)

Definition M (A : Type) : Type := State -> State * outcome A.

Definition ret {A} (a : A) : M A := fun s => (s, Return a).

Definition bind {A B} (m : M A) (k : A -> M B) : M B :=
  fun s => match m s with
           | (s', Return a) => k a s'
           | (s', Throw) => (s', Throw)
           end.

Definition get_this : M Crawler := fun s => (s, Return (this s)).

Definition modify_this (f : Crawler -> Crawler) : M unit :=
  fun s => (mkState (f (this s)) (fetches s), Return tt).

Definition log_fetch (e : Entry) : M unit :=
  fun s => (mkState (this s) (fetches s ++ [e]), Return tt).

Definition lift {A} (o : outcome A) : M A := fun s => (s, o).

Notation "x <- m ;; k" := (bind m (fun x => k))
  (at level 100, m at next level, right associativity).
Notation "m ;;; k" := (bind m (fun _ => k))
  (at level 100, right associativity).

(** The value of an expression together with the equation that it is this
    value, for the case analyses of the loop below. *)
Definition inspect {A} (a : A) : { b : A | a = b } := exist _ a eq_refl.

(** Field updates of [this]. *)
Definition set_seen (f : gset string -> gset string) (c : Crawler) : Crawler :=
  mkCrawler (f (seen c)) (pages c) (queue c) (maxDepth c) (maxPages c).
Definition set_pages (f : list Page -> list Page) (c : Crawler) : Crawler :=
  mkCrawler (seen c) (f (pages c)) (queue c) (maxDepth c) (maxPages c).
Definition set_queue (f : list Entry -> list Entry) (c : Crawler) : Crawler :=
  mkCrawler (seen c) (pages c) (f (queue c)) (maxDepth c) (maxPages c).

(** [constructor(private maxDepth = 2, private maxPages = 1)]: an omitted
    ([undefined]) argument takes its default; the three collections start
    empty (field initialisers, crawler.ts:16-18). *)
Definition new_Crawler (maxDepth maxPages : option Z) : Crawler :=
  mkCrawler ∅ [] [] (default 2 maxDepth) (default 1 maxPages).

Definition new_State (maxDepth maxPages : option Z) : State :=
  mkState (new_Crawler maxDepth maxPages) [].

(** ** The crawl engine *)

(** The collaborators the code calls, as functions of their inputs. *)
Class Collaborators := {
  (** The network: what [fetch(url)] and [response.text()] yield. *)
  fetch : string -> FetchOutcome;
  (** [cheerio.load(html); $('a').removeAttr('href'); $.html()]. *)
  removeHrefs : string -> string;
  (** [NodeHtmlMarkdown.translate(markup, undefined)]. *)
  translate : string -> string;
  (** The [href] attribute of every element matched by [$('a[href]')] in
      [cheerio.load(html)], in document order. *)
  anchorHrefs : string -> list string;
  (** [new URL(href, baseUrl).href], or [None] when the constructor throws
      a [TypeError] (no valid address results). *)
  URL_href : string -> string -> option string;
  (** The instances of [RecursiveCharacterTextSplitter]. *)
  Splitter : Type;
  (** [new RecursiveCharacterTextSplitter(fields)]; the constructor may
      reject its fields by throwing. *)
  RecursiveCharacterTextSplitter : gmap string JsValue -> outcome Splitter;
  (** [splitter.splitText(text)]. *)
  splitText : Splitter -> string -> outcome (list string)
}.

Section Engine.

Context {env : Collaborators}.

(** [isTooDeep(depth)]: [depth > this.maxDepth]. *)
Definition isTooDeep (c : Crawler) (d : Z) : bool := bool_decide (d > maxDepth c).

(** [isAlreadySeen(url)]: [this.seen.has(url)]. *)
Definition isAlreadySeen (c : Crawler) (u : string) : bool := bool_decide (u ∈ seen c).

(** [shouldContinueCrawling()]:
    [this.queue.length > 0 && this.pages.length < this.maxPages]. *)
Definition shouldContinueCrawling (c : Crawler) : bool :=
  bool_decide (Z.of_nat (length (queue c)) > 0)
  && bool_decide (Z.of_nat (length (pages c)) < maxPages c).

(** [addToQueue(url, depth = 0)]: [this.queue.push({ url, depth })]. *)
Definition addToQueue (u : string) (d : option Z) : M unit :=
  modify_this (set_queue (fun q => q ++ [mkEntry u (default 0 d)])).

(** [addNewUrlsToQueue(urls, depth)]:
    [this.queue.push(...urls.map(url => ({ url, depth: depth + 1 })))].
    The spread call is taken to succeed: the limit a JavaScript engine
    puts on the number of arguments of one call is not modelled. *)
Definition addNewUrlsToQueue (urls : list string) (d : Z) : M unit :=
  modify_this (set_queue (fun q => q ++ ((fun u => mkEntry u (d + 1)) <$> urls))).

(** [fetchPage(url)]: the body text of whatever response arrives; the
    empty string when [fetch] or [response.text()] throws (the [catch]
    branch).  The status of the response is never inspected. *)
Definition fetchPage (u : string) : string :=
  match fetch u with
  | Responded _ text => text
  | Rejected => ""
  end.

(** [parseHtml(html)] (the engine never passes [options]).  The two
    library calls are taken to return for every markup: a conversion that
    throws (as on markup nested too deeply for the parser) is not
    modelled. *)
Definition parseHtml (html : string) : string := translate (removeHrefs html).

(** The callback of [.each] in [extractUrls], run over the matched
    anchors with the accumulator [urls]: a falsy (empty) [href] is
    skipped, any other is resolved against [baseUrl] and pushed. *)
Fixpoint extractUrls_each (hrefs : list string) (baseUrl : string)
         (urls : list string) : outcome (list string) :=
  match hrefs with
  | [] => Return urls
  | href :: rest =>
      if String.eqb href "" then extractUrls_each rest baseUrl urls
      else match URL_href href baseUrl with
           | Some u => extractUrls_each rest baseUrl (urls ++ [u])
           | None => Throw
           end
  end.

(** [extractUrls(html, baseUrl)]. *)
Definition extractUrls (html baseUrl : string) : outcome (list string) :=
  extractUrls_each (anchorHrefs html) baseUrl [].

(** [this.queue.shift()] followed by the destructuring of its result:
    on an empty queue [shift] yields [undefined], whose destructuring
    throws. *)
Definition shift : M Entry :=
  fun s => match queue (this s) with
           | [] => (s, Throw)
           | e :: rest => (mkState (set_queue (fun _ => rest) (this s)) (fetches s), Return e)
           end.

(** The body of the [while] loop of [crawl] (crawler.ts:36-46). *)
Definition crawl_body : M unit :=
  e <- shift ;;
  c <- get_this ;;
  if isTooDeep c (depth e) || isAlreadySeen c (e_url e) then ret tt
  else
    modify_this (set_seen (fun sn => sn ∪ {[ e_url e ]})) ;;;
    log_fetch e ;;;
    let html := fetchPage (e_url e) in
    modify_this (set_pages (fun ps => ps ++ [mkPage (e_url e) (parseHtml html)])) ;;;
    urls <- lift (extractUrls html (e_url e)) ;;
    addNewUrlsToQueue urls (depth e).

(** The state after the entry at the front has been discarded by the
    guard of crawler.ts:38: only the frontier has changed. *)
Definition dropped (s : State) (rest : list Entry) : State :=
  mkState (set_queue (fun _ => rest) (this s)) (fetches s).

(** The state after entry [e] has been processed, with [q] for the
    frontier: [e]'s address is in the seen set, its page has been
    fetched and appended. *)
Definition recorded (s : State) (e : Entry) (q : list Entry) : State :=
  mkState
    (mkCrawler (seen (this s) ∪ {[ e_url e ]})
               (pages (this s) ++ [mkPage (e_url e) (parseHtml (fetchPage (e_url e)))])
               q (maxDepth (this s)) (maxPages (this s)))
    (fetches s ++ [e]).

(** The termination measure of the loop: the pages still allowed, then
    the length of the frontier. *)
Definition budget (c : Crawler) : nat :=
  Z.to_nat (maxPages c - Z.of_nat (length (pages c))).

Definition measure (s : State) : nat * nat :=
  (budget (this s), length (queue (this s))).

(** The order of the measure is well founded; the proof is wrapped so
    that the loop evaluates on closed inputs. *)
#[local] Instance measure_wf : WellFounded (Subterm.lexprod nat nat lt lt) :=
  Acc_intro_generator 8 (Subterm.wf_lexprod nat nat lt lt lt_wf lt_wf).
#[global] Opaque measure_wf.

(** The [while] loop of [crawl] (crawler.ts:35-47): the guard, then the
    body, again and again; an exception thrown by the body leaves the
    loop.  Each run of the body either uses up one permitted page or
    shortens the frontier. *)
Equations? crawl_loop (s : State) : State * outcome unit
  by wf (measure s) (Subterm.lexprod nat nat lt lt) :=
crawl_loop s with inspect (shouldContinueCrawling (this s)) := {
  | exist _ false _ => (s, Return tt)
  | exist _ true Hguard with inspect (crawl_body s) := {
    | exist _ (s', Throw) _ => (s', Throw)
    | exist _ (s', Return _) Hbody => crawl_loop s' } }.
Proof.
  clear crawl_loop.
  unfold shouldContinueCrawling in Hguard.
  apply andb_true_iff in Hguard as [Hq Hp].
  apply bool_decide_eq_true in Hq, Hp.
  unfold crawl_body, bind, shift, get_this in Hbody.
  destruct s as [c fs]; simpl in *.
  destruct (queue c) as [|e rest] eqn:Eq; [discriminate|].
  unfold measure, budget. simpl in Hbody.
  destruct (isTooDeep _ _ || isAlreadySeen _ _).
  - injection Hbody as <-. simpl. rewrite Eq. simpl.
    apply Subterm.right_lex. lia.
  - unfold modify_this, log_fetch, lift, addNewUrlsToQueue, modify_this in Hbody.
    simpl in Hbody.
    destruct (extractUrls _ _); [|discriminate].
    injection Hbody as <-. simpl.
    apply Subterm.left_lex. rewrite length_app. simpl. lia.
Qed.

(** [crawl(startUrl)] (crawler.ts:32-50). *)
Definition crawl (startUrl : string) : M (list Page) :=
  addToQueue startUrl None ;;;
  crawl_loop ;;;
  c <- get_this ;;
  ret (pages c).

End Engine.

(** ** The chunking pass and the end-to-end [seed] *)

(** The object literal [{ chunkSize: 1000, chunkOverlap: 200 }]. *)
Definition splitterDefaults : gmap string JsValue :=
  <["chunkSize" := VNum 1000]> (<["chunkOverlap" := VNum 200]> ∅).

(** [{ chunkSize: 1000, chunkOverlap: 200, ...splitterOptions }]: the
    properties of [splitterOptions] (none, when it is [undefined]) are
    copied over the two literal ones. *)
Definition splitterFields (splitterOptions : option (gmap string JsValue))
  : gmap string JsValue :=
  default ∅ splitterOptions ∪ splitterDefaults.

(** The inner loop of [seed]: [for (const chunk of chunks)
    documents.push({ url: page.url, content: chunk })]. *)
Fixpoint push_chunks (page_url : string) (chunks : list string)
         (documents : list Document) : list Document :=
  match chunks with
  | [] => documents
  | chunk :: rest => push_chunks page_url rest (documents ++ [mkDocument page_url chunk])
  end.

(** The documents a page contributes, given the chunks of its text. *)
Definition page_documents (p : Page) (chunks : list string) : list Document :=
  mkDocument (url p) <$> chunks.

Section Seed.

Context {env : Collaborators}.

(** The outer loop of [seed]: [for (const page of pages)]. *)
Fixpoint chunk_pages (splitter : Splitter) (pgs : list Page)
         (documents : list Document) : outcome (list Document) :=
  match pgs with
  | [] => Return documents
  | page :: rest =>
      match splitText splitter (content page) with
      | Return chunks =>
          chunk_pages splitter rest (push_chunks (url page) chunks documents)
      | Throw => Throw
      end
  end.

(** The crawler [seed] constructs: its parameters [maxDepth = 2] and
    [maxPages = 1] take their defaults when omitted and are handed on
    to the constructor. *)
Definition seed_crawler (maxDepth maxPages : option Z) : Crawler :=
  let maxDepth := default 2 maxDepth in
  let maxPages := default 1 maxPages in
  new_Crawler (Some maxDepth) (Some maxPages).

(** [seed(startUrl, maxDepth = 2, maxPages = 1, splitterOptions?)]. *)
Definition seed (startUrl : string) (maxDepth maxPages : option Z)
           (splitterOptions : option (gmap string JsValue))
  : outcome (list Document) :=
  let crawler := seed_crawler maxDepth maxPages in
  match crawl startUrl (mkState crawler []) with
  | (_, Throw) => Throw
  | (_, Return pgs) =>
      match RecursiveCharacterTextSplitter (splitterFields splitterOptions) with
      | Throw => Throw
      | Return splitter => chunk_pages splitter pgs []
      end
  end.

End Seed.

(** ** [sliceIntoChunks] *)

(** [Math.ceil(a / b)] for integers [a] and [b <> 0]. *)
Definition ceil_div (a b : Z) : Z := - ((- a) / b).

(** [arr.slice(start, end)] for integer arguments: a negative index counts
    from the end, both are clamped to the array. *)
Definition js_slice {T} (arr : list T) (start end_ : Z) : list T :=
  let len := Z.of_nat (length arr) in
  let k := if start <? 0 then Z.max (len + start) 0 else Z.min start len in
  let final := if end_ <? 0 then Z.max (len + end_) 0 else Z.min end_ len in
  take (Z.to_nat (final - k)) (drop (Z.to_nat k) arr).

(** [sliceIntoChunks(arr, chunkSize)] for an integer [chunkSize].
    [Array.from({ length: n }, f)] builds [f(_, 0), ..., f(_, n - 1)], and
    nothing when [n] is negative or [NaN] (the quotient [0 / 0]); the
    length [Infinity] (a non-empty array over [0]) makes it throw a
    [RangeError]. *)
Definition sliceIntoChunks {T} (arr : list T) (chunkSize : Z)
  : outcome (list (list T)) :=
  let len := Z.of_nat (length arr) in
  if chunkSize =? 0 then
    if len =? 0 then Return [] else Throw
  else
    Return ((fun i => js_slice arr (i * chunkSize) ((i + 1) * chunkSize))
              <$> seqZ 0 (ceil_div len chunkSize)).

(** ** A small web to run the engine on *)

Module Demo.

(** Four addresses: [a] links to [b], [c] and itself; [b] links to [d]
    and back to [a]; [c] answers 404 with an error page that links to
    [b]; [d] cannot be fetched. *)
Definition demo_fetch (u : string) : FetchOutcome :=
  if String.eqb u "a" then Responded 200 "<a b><a c><a a>"
  else if String.eqb u "b" then Responded 200 "<a d><a a>"
  else if String.eqb u "c" then Responded 404 "Not Found <a b>"
  else Rejected.

Definition demo_anchors (html : string) : list string :=
  if String.eqb html "<a b><a c><a a>" then ["b"; "c"; "a"]
  else if String.eqb html "<a d><a a>" then ["d"; ""; "a"]
  else if String.eqb html "Not Found <a b>" then ["b"]
  else [].

(** A splitter cutting a text into pieces of [size] characters. *)
Fixpoint pieces (fuel size : nat) (text : string) : list string :=
  match fuel with
  | O => []
  | S fuel' =>
      if String.eqb text "" then []
      else String.substring 0 size text
             :: pieces fuel' size (String.substring size (String.length text - size) text)
  end.

Definition demo : Collaborators := {|
  fetch := demo_fetch;
  removeHrefs := fun html => html;
  translate := fun html => html;
  anchorHrefs := demo_anchors;
  URL_href := fun href _ => Some href;
  Splitter := nat;
  RecursiveCharacterTextSplitter := fun fields =>
    match fields !! "chunkSize", fields !! "chunkOverlap" with
    | Some (VNum size), Some (VNum overlap) =>
        if bool_decide (0 <= overlap < size) then Return (Z.to_nat size) else Throw
    | _, _ => Throw
    end;
  splitText := fun size text => Return (pieces (String.length text) size text)
|}.

End Demo.

(** ** Runs of the loop, lives of an engine, paths of links *)

(** The states a run of the loop started in [s0] passes through, each with
    the outcome of the body that led to it ([Return] for [s0] itself): the
    body runs only from a state reached normally and under the guard. *)
Inductive loop_state {env : Collaborators} (s0 : State) : State -> outcome unit -> Prop :=
| loop_state_init : loop_state s0 s0 (Return tt)
| loop_state_body s s' o :
    loop_state s0 s (Return tt) ->
    shouldContinueCrawling (this s) = true ->
    crawl_body s = (s', o) ->
    loop_state s0 s' o.

(** One run of the body as a relation, by cases: the front entry is
    discarded; or it is processed and its links are enqueued; or it is
    processed and link extraction throws. *)
Inductive body_step {env : Collaborators} (s : State) : State -> outcome unit -> Prop :=
| step_skip e rest :
    queue (this s) = e :: rest ->
    depth e > maxDepth (this s) \/ e_url e ∈ seen (this s) ->
    body_step s (dropped s rest) (Return tt)
| step_visit e rest urls :
    queue (this s) = e :: rest ->
    depth e <= maxDepth (this s) ->
    e_url e ∉ seen (this s) ->
    extractUrls (fetchPage (e_url e)) (e_url e) = Return urls ->
    body_step s (recorded s e (rest ++ ((fun u => mkEntry u (depth e + 1)) <$> urls)))
              (Return tt)
| step_throw e rest :
    queue (this s) = e :: rest ->
    depth e <= maxDepth (this s) ->
    e_url e ∉ seen (this s) ->
    extractUrls (fetchPage (e_url e)) (e_url e) = Throw ->
    body_step s (recorded s e rest) Throw.

(** The states an engine built by [new Crawler(maxDepth, maxPages)] can be
    in when [crawl] is called on it: freshly constructed, or left behind
    by an earlier call of [crawl] (whether it returned or threw). *)
Inductive engine_state {env : Collaborators} (maxDepth maxPages : option Z) : State -> Prop :=
| engine_new : engine_state maxDepth maxPages (new_State maxDepth maxPages)
| engine_crawled s startUrl :
    engine_state maxDepth maxPages s ->
    engine_state maxDepth maxPages (crawl startUrl s).1.

(** [v] is among the addresses extracted from the page fetched at [u]. *)
Definition link {env : Collaborators} (u v : string) : Prop :=
  exists urls, extractUrls (fetchPage u) u = Return urls /\ v ∈ urls.

(** [hops start k v]: a path of [k] links leads from [start] to [v]. *)
Inductive hops {env : Collaborators} (start : string) : nat -> string -> Prop :=
| hops_start : hops start 0 start
| hops_link k u v : hops start k u -> link u v -> hops start (S k) v.

(** ** Invariants of the engine *)

Section Invariants.
Context {env : Collaborators}.

(** A property of states kept by every guarded run of the body. *)
Definition body_keeps (I : State -> Prop) : Prop :=
  forall s s' o, I s -> shouldContinueCrawling (this s) = true ->
                 crawl_body s = (s', o) -> I s'.

(** The result accumulator holds no more pages than permitted. *)
Definition within_budget (s : State) : Prop :=
  Z.of_nat (length (pages (this s))) <= maxPages (this s).

(** The seen set, the result accumulator and the fetch log hold the same
    addresses, each once. *)
Definition seen_once (s : State) : Prop :=
  NoDup (url <$> pages (this s)) /\
  e_url <$> fetches s = url <$> pages (this s) /\
  (forall u, u ∈ seen (this s) <-> u ∈ url <$> pages (this s)).

(** An entry whose depth is the number of links of some path from
    [start] to its address. *)
Definition on_path (start : string) (e : Entry) : Prop :=
  exists k : nat, depth e = Z.of_nat k /\ hops start k (e_url e).

(** Every processed entry and every frontier entry lies on a path from
    [start] of as many links as its depth, and the processed ones are no
    deeper than [maxDepth]. *)
Definition depth_sound (start : string) (s : State) : Prop :=
  Forall (fun e => depth e <= maxDepth (this s) /\ on_path start e) (fetches s) /\
  Forall (on_path start) (queue (this s)).

(** Depths never decrease along the processed entries followed by the
    frontier, and the frontier spans at most two consecutive depths. *)
Definition breadth_first (s : State) : Prop :=
  StronglySorted Z.le (depth <$> (fetches s ++ queue (this s))) /\
  exists d, Forall (fun e => d <= depth e <= d + 1) (queue (this s)).

End Invariants.

(** ** Further invariants of the engine *)

Section MoreInvariants.
Context {env : Collaborators}.

(** Every accumulated page holds the conversion of what [fetchPage]
    yields for its address. *)
Definition content_faithful (s : State) : Prop :=
  Forall (fun p => content p = parseHtml (fetchPage (url p))) (pages (this s)).

(** The address [v], due at depth [d], is accounted for: an entry for it
    waits in the frontier, or [d] is beyond the depth limit, or it has
    been fetched at depth [d] or less. *)
Definition handled (s : State) (v : string) (d : Z) : Prop :=
  mkEntry v d ∈ queue (this s) \/
  d > maxDepth (this s) \/
  exists e, e ∈ fetches s /\ e_url e = v /\ depth e <= d.

(** The start address and every link of every fetched entry are
    accounted for. *)
Definition frontier_complete (start : string) (s : State) : Prop :=
  handled s start 0 /\
  forall e v, e ∈ fetches s -> link (e_url e) v -> handled s v (depth e + 1).

(** The invariants of a crawl that started on a new engine. *)
Definition exploring (start : string) (s : State) : Prop :=
  seen_once s /\ breadth_first s /\ depth_sound start s /\ frontier_complete start s.

End MoreInvariants.

(** ** [truncateStringByBytes] *)

(** The platform's text codec. *)
Class TextCodec := {
  (** [new TextEncoder().encode(str)]: the bytes of [str] in UTF-8. *)
  TextEncoder_encode : string -> list Byte.byte;
  (** [new TextDecoder("utf-8").decode(bytes)]. *)
  TextDecoder_decode : list Byte.byte -> string
}.

(** [truncateStringByBytes(str, bytes)] for an integer [bytes]:
    [decode(enc.encode(str).slice(0, bytes))]; [slice] on a typed array
    treats its indices as [Array.prototype.slice] does. *)
Definition truncateStringByBytes {codec : TextCodec} (str : string) (bytes : Z) : string :=
  TextDecoder_decode (js_slice (TextEncoder_encode str) 0 bytes).

(** ** A codec for texts of one-byte characters *)

Module ByteCodec.

Definition codec : TextCodec := {|
  TextEncoder_encode := String.list_byte_of_string;
  TextDecoder_decode := String.string_of_list_byte
|}.

End ByteCodec.

(** * Properties *)

(** ** The loop and its body *)

Section LoopFacts.
Context {env : Collaborators}.

Lemma crawl_loop_eq (s : State) :
  crawl_loop s =
    if shouldContinueCrawling (this s) then
      match crawl_body s with
      | (s', Return _) => crawl_loop s'
      | (s', Throw) => (s', Throw)
      end
    else (s, Return tt).
Proof.
  funelim (crawl_loop s).
  - rewrite e. reflexivity.
  - rewrite Hguard, Hbody. reflexivity.
  - rewrite Hguard, e. reflexivity.
Qed.

Lemma crawl_loop_done (s : State) :
  shouldContinueCrawling (this s) = false -> crawl_loop s = (s, Return tt).
Proof. intros H. rewrite crawl_loop_eq, H. reflexivity. Qed.

Lemma crawl_loop_step (s s' : State) :
  shouldContinueCrawling (this s) = true ->
  crawl_body s = (s', Return tt) ->
  crawl_loop s = crawl_loop s'.
Proof. intros H Hb. rewrite crawl_loop_eq, H, Hb. reflexivity. Qed.

Lemma crawl_loop_throw (s s' : State) :
  shouldContinueCrawling (this s) = true ->
  crawl_body s = (s', Throw) ->
  crawl_loop s = (s', Throw).
Proof. intros H Hb. rewrite crawl_loop_eq, H, Hb. reflexivity. Qed.

(** What the body does, by cases on the guard of crawler.ts:38. *)
Lemma guard_38 (c : Crawler) (e : Entry) :
  isTooDeep c (depth e) || isAlreadySeen c (e_url e) = true <->
  depth e > maxDepth c \/ e_url e ∈ seen c.
Proof.
  unfold isTooDeep, isAlreadySeen.
  rewrite orb_true_iff, !bool_decide_eq_true. reflexivity.
Qed.

Lemma crawl_body_skip (s : State) (e : Entry) (rest : list Entry) :
  queue (this s) = e :: rest ->
  depth e > maxDepth (this s) \/ e_url e ∈ seen (this s) ->
  crawl_body s = (dropped s rest, Return tt).
Proof.
  intros Hq Hg. apply (guard_38 (this s)) in Hg.
  unfold crawl_body, bind, shift, get_this. rewrite Hq. simpl.
  unfold isTooDeep, isAlreadySeen in *. simpl. rewrite Hg. reflexivity.
Qed.

Lemma crawl_body_visit (s : State) (e : Entry) (rest : list Entry) :
  queue (this s) = e :: rest ->
  depth e <= maxDepth (this s) ->
  e_url e ∉ seen (this s) ->
  crawl_body s =
    match extractUrls (fetchPage (e_url e)) (e_url e) with
    | Return urls =>
        (recorded s e (rest ++ ((fun u => mkEntry u (depth e + 1)) <$> urls)), Return tt)
    | Throw => (recorded s e rest, Throw)
    end.
Proof.
  intros Hq Hd Hs.
  assert (Hg : isTooDeep (this s) (depth e) || isAlreadySeen (this s) (e_url e) = false).
  { apply not_true_is_false. rewrite guard_38. intros [?|?]; [lia|done]. }
  unfold crawl_body, bind, shift, get_this. rewrite Hq. simpl.
  unfold isTooDeep, isAlreadySeen in *. simpl. rewrite Hg.
  unfold modify_this, log_fetch, lift, addNewUrlsToQueue, modify_this. simpl.
  destruct (extractUrls _ _); reflexivity.
Qed.

(** The relation [body_step] is the graph of the body on a non-empty
    frontier. *)
Lemma body_step_sound (s s' : State) (o : outcome unit) :
  body_step s s' o -> crawl_body s = (s', o).
Proof.
  intros [e rest Hq Hg | e rest urls Hq Hd Hs Hx | e rest Hq Hd Hs Hx].
  - by apply crawl_body_skip with e.
  - rewrite (crawl_body_visit s e rest) by done. by rewrite Hx.
  - rewrite (crawl_body_visit s e rest) by done. by rewrite Hx.
Qed.

Lemma crawl_body_step (s s' : State) (o : outcome unit) :
  queue (this s) <> [] -> crawl_body s = (s', o) -> body_step s s' o.
Proof.
  intros Hne Hb. destruct (queue (this s)) as [|e rest] eqn:Hq; [done|].
  destruct (decide (depth e > maxDepth (this s) \/ e_url e ∈ seen (this s))) as [Hg|Hg].
  - rewrite (crawl_body_skip s e rest) in Hb by done.
    injection Hb as <- <-. by apply step_skip with e.
  - assert (depth e <= maxDepth (this s)) by lia.
    assert (e_url e ∉ seen (this s)) by tauto.
    rewrite (crawl_body_visit s e rest) in Hb by done.
    destruct (extractUrls _ _) as [urls|] eqn:Hx; injection Hb as <- <-.
    + by apply step_visit.
    + by apply step_throw.
Qed.

Lemma guard_queue (s : State) :
  shouldContinueCrawling (this s) = true ->
  exists e rest, queue (this s) = e :: rest /\
                 Z.of_nat (length (pages (this s))) < maxPages (this s).
Proof.
  unfold shouldContinueCrawling. intros H.
  apply andb_true_iff in H as [Hq Hp].
  apply bool_decide_eq_true in Hq, Hp.
  destruct (queue (this s)) as [|e rest]; [simpl in Hq; lia|eauto].
Qed.

(** The final state of the loop is one of its states, and after a
    normal exit the guard is false. *)
Lemma crawl_loop_final (s : State) :
  loop_state s (crawl_loop s).1 (crawl_loop s).2 /\
  ((crawl_loop s).2 = Return tt -> shouldContinueCrawling (this (crawl_loop s).1) = false).
Proof.
  assert (G : forall s0, loop_state s0 s (Return tt) ->
    loop_state s0 (crawl_loop s).1 (crawl_loop s).2 /\
    ((crawl_loop s).2 = Return tt -> shouldContinueCrawling (this (crawl_loop s).1) = false)).
  2: { apply G. constructor. }
  funelim (crawl_loop s); intros s0 Hs0.
  - simpl. auto.
  - apply H. destruct a. eapply loop_state_body; eauto.
  - simpl. split; [|discriminate].
    eapply loop_state_body; eauto.
Qed.

(** A property kept by every guarded run of the body holds throughout
    the loop. *)
Lemma loop_state_keeps (I : State -> Prop) (s0 s : State) (o : outcome unit) :
  body_keeps I -> I s0 -> loop_state s0 s o -> I s.
Proof.
  intros HI H0 Hl. induction Hl; [assumption|]. eapply HI; eauto.
Qed.

Lemma crawl_loop_keeps (I : State -> Prop) (s : State) :
  body_keeps I -> I s -> I (crawl_loop s).1.
Proof.
  intros HI H0. eapply loop_state_keeps; eauto. apply crawl_loop_final.
Qed.

(** [crawl] in terms of the loop. *)
Lemma crawl_eq (startUrl : string) (s : State) :
  crawl startUrl s =
    let r := crawl_loop (addToQueue startUrl None s).1 in
    (r.1, match r.2 with
          | Return _ => Return (pages (this r.1))
          | Throw => Throw
          end).
Proof.
  unfold crawl, bind. simpl.
  destruct (crawl_loop _) as [s' [[]|]]; reflexivity.
Qed.

Lemma guarded_body_step (s s' : State) (o : outcome unit) :
  shouldContinueCrawling (this s) = true ->
  crawl_body s = (s', o) ->
  body_step s s' o /\ Z.of_nat (length (pages (this s))) < maxPages (this s).
Proof.
  intros Hg Hb. apply guard_queue in Hg as (e & rest & Hq & Hp).
  split; [|done]. apply crawl_body_step; [|done]. by rewrite Hq.
Qed.

(** The configuration is never written. *)
Lemma body_step_config (s s' : State) (o : outcome unit) :
  body_step s s' o ->
  maxDepth (this s') = maxDepth (this s) /\ maxPages (this s') = maxPages (this s).
Proof. by intros []. Qed.

Lemma loop_state_config (s0 s : State) (o : outcome unit) :
  loop_state s0 s o ->
  maxDepth (this s) = maxDepth (this s0) /\ maxPages (this s) = maxPages (this s0).
Proof.
  induction 1 as [|s s' o _ [IH1 IH2] Hg Hb]; [done|].
  apply guarded_body_step in Hb as [Hb _]; [|done].
  apply body_step_config in Hb as [-> ->]. done.
Qed.

Lemma within_budget_kept : body_keeps within_budget.
Proof.
  intros s s' o HI Hg Hb. apply guarded_body_step in Hb as [Hb Hp]; [|done].
  unfold within_budget in *.
  destruct Hb; simpl; rewrite ?length_app; simpl; lia.
Qed.

Lemma seen_once_recorded (s : State) (e : Entry) (q : list Entry) :
  seen_once s -> e_url e ∉ seen (this s) -> seen_once (recorded s e q).
Proof.
  intros (Hnd & Hf & Hs) Hn. unfold seen_once. simpl.
  rewrite !fmap_app. simpl. rewrite Hf. split_and!.
  - apply NoDup_app. split_and!; [done| |apply NoDup_singleton].
    intros u Hu. rewrite list_elem_of_singleton. intros ->. by apply Hn, Hs.
  - done.
  - intros u. rewrite elem_of_union, elem_of_singleton, elem_of_app,
      list_elem_of_singleton, Hs. done.
Qed.

Lemma seen_once_kept : body_keeps seen_once.
Proof.
  intros s s' o HI Hg Hb. apply guarded_body_step in Hb as [Hb _]; [|done].
  destruct Hb; [done| |]; by apply seen_once_recorded.
Qed.

Lemma on_path_link (start : string) (e : Entry) (urls : list string) :
  on_path start e ->
  extractUrls (fetchPage (e_url e)) (e_url e) = Return urls ->
  Forall (on_path start) ((fun u => mkEntry u (depth e + 1)) <$> urls).
Proof.
  intros (k & Hk & Hh) Hx. apply Forall_fmap, Forall_forall. intros v Hv.
  exists (S k). simpl. split; [lia|].
  apply hops_link with (e_url e); [done|]. by exists urls.
Qed.

Lemma depth_sound_kept (start : string) : body_keeps (depth_sound start).
Proof.
  intros s s' o [Hf Hq] Hg Hb. apply guarded_body_step in Hb as [Hb _]; [|done].
  unfold depth_sound.
  destruct Hb as [e rest Hq' _ | e rest urls Hq' Hd _ Hx | e rest Hq' Hd _ _];
    rewrite Hq' in Hq; apply Forall_cons in Hq as [He Hrest]; simpl.
  - done.
  - split.
    + apply Forall_app. split; [done|]. by apply Forall_singleton.
    + apply Forall_app. split; [done|]. by apply on_path_link.
  - split; [|done].
    apply Forall_app. split; [done|]. by apply Forall_singleton.
Qed.

Lemma breadth_first_kept : body_keeps breadth_first.
Proof.
  intros s s' o [Hs [d Hd]] Hg Hb. apply guarded_body_step in Hb as [Hb _]; [|done].
  unfold breadth_first.
  destruct Hb as [e rest Hq' _ | e rest urls Hq' _ _ _ | e rest Hq' _ _ _];
    rewrite Hq' in Hs, Hd; apply Forall_cons in Hd as [He Hrest]; simpl;
    rewrite fmap_app, fmap_cons in Hs;
    apply StronglySorted_app in Hs as (Hfq & Hsf & Hsq);
    apply StronglySorted_cons in Hsq as [Her Hsr].
  - split; [|by exists d].
    rewrite fmap_app. apply StronglySorted_app. split_and!; [|done..].
    intros x1 x2 H1 H2. apply Hfq; [done|]. by right.
  - split.
    + rewrite <- app_assoc, !fmap_app. simpl.
      apply StronglySorted_app. split_and!; [|done|].
      * intros x1 x2 H1 H2. apply elem_of_cons in H2 as [->|H2]; [apply Hfq; [done|by left]|].
        apply elem_of_app in H2 as [H2|H2]; [apply Hfq; [done|by right]|].
        apply list_elem_of_fmap in H2 as (e2 & -> & H2).
        apply list_elem_of_fmap in H2 as (u & -> & _). simpl.
        transitivity (depth e); [|lia]. apply Hfq; [done|by left].
      * apply StronglySorted_cons. split.
        -- apply Forall_app. split; [done|].
           apply Forall_fmap, Forall_fmap, Forall_forall. intros; simpl; lia.
        -- apply StronglySorted_app. split_and!; [|done|].
           ++ intros x1 x2 H1 H2.
              apply list_elem_of_fmap in H1 as (e1 & -> & H1).
              apply list_elem_of_fmap in H2 as (e2 & -> & H2).
              apply list_elem_of_fmap in H2 as (u & -> & _). simpl.
              rewrite Forall_forall in Hrest. specialize (Hrest _ H1). lia.
           ++ clear. induction urls as [|u urls IH]; simpl; constructor; [done|].
              apply Forall_fmap, Forall_fmap, Forall_forall. intros; simpl; lia.
    + exists (depth e). apply Forall_app. split.
      * rewrite Forall_forall in Hrest. rewrite Forall_forall in Her.
        apply Forall_forall. intros e1 H1.
        specialize (Hrest _ H1).
        assert (depth e <= depth e1); [|lia].
        apply Her. by apply list_elem_of_fmap_2.
      * apply Forall_fmap, Forall_forall. intros; simpl; lia.
  - split; [|by exists d].
    rewrite <- app_assoc, !fmap_app. simpl.
    apply StronglySorted_app. split_and!; [|done|].
    + intros x1 x2 H1 H2. apply Hfq; [done|].
      apply elem_of_cons in H2 as [->|H2]; [by left|by right].
    + by apply StronglySorted_cons.
Qed.

End LoopFacts.

(** ** Engines between calls of [crawl] *)

Section EngineFacts.
Context {env : Collaborators}.

Lemma addToQueue_state (u : string) (s : State) :
  (addToQueue u None s).1
  = mkState (set_queue (fun q => q ++ [mkEntry u 0]) (this s)) (fetches s).
Proof. reflexivity. Qed.

Lemma crawl_state (u : string) (s : State) :
  (crawl u s).1 = (crawl_loop (addToQueue u None s).1).1.
Proof. rewrite crawl_eq. reflexivity. Qed.

Lemma crawl_returns (u : string) (s s' : State) (ps : list Page) :
  crawl u s = (s', Return ps) ->
  s' = (crawl_loop (addToQueue u None s).1).1 /\
  (crawl_loop (addToQueue u None s).1).2 = Return tt /\
  ps = pages (this s').
Proof.
  rewrite crawl_eq. simpl.
  destruct (crawl_loop _) as [s1 [[]|]]; simpl; [|discriminate].
  intros [= <- <-]. done.
Qed.

(** A state of the loop of [crawl u s], seen from [s]. *)
Lemma crawl_keeps (I : State -> Prop) (u : string) (s : State) :
  body_keeps I -> (I s -> I (addToQueue u None s).1) -> I s -> I (crawl u s).1.
Proof.
  intros HI Ha Hs. rewrite crawl_state. apply crawl_loop_keeps; auto.
Qed.

Lemma engine_state_config (md mp : option Z) (s : State) :
  engine_state md mp s ->
  maxDepth (this s) = default 2 md /\ maxPages (this s) = default 1 mp.
Proof.
  induction 1 as [|s u _ [IH1 IH2]]; [done|].
  rewrite crawl_state.
  destruct (loop_state_config (addToQueue u None s).1 _ _
              (proj1 (crawl_loop_final _))) as [-> ->].
  done.
Qed.

Lemma engine_state_within_budget (md mp : option Z) (s : State) :
  0 <= default 1 mp -> engine_state md mp s -> within_budget s.
Proof.
  intros Hmp. induction 1 as [|s u _ IH].
  - unfold within_budget. simpl. lia.
  - apply crawl_keeps; [apply within_budget_kept|done..].
Qed.

Lemma engine_state_seen_once (md mp : option Z) (s : State) :
  engine_state md mp s -> seen_once s.
Proof.
  induction 1 as [|s u _ IH].
  - unfold seen_once. simpl. split_and!; [constructor|done|set_solver].
  - apply crawl_keeps; [apply seen_once_kept|done..].
Qed.

(** The first call of [crawl] on a new engine starts from a state in
    which the depth and order invariants hold. *)
Lemma first_call_depth_sound (md mp : option Z) (start : string) :
  depth_sound start (addToQueue start None (new_State md mp)).1.
Proof.
  split; simpl; [constructor|].
  apply Forall_singleton. exists 0%nat. split; [done|constructor].
Qed.

Lemma first_call_breadth_first (md mp : option Z) (start : string) :
  breadth_first (addToQueue start None (new_State md mp)).1.
Proof.
  split; simpl.
  - repeat constructor.
  - exists 0. apply Forall_singleton. simpl. lia.
Qed.

End EngineFacts.

(** ** The claims about the crawl engine *)

Section CrawlClaims.
Context {env : Collaborators}.

(** C1.  Whenever [crawl] is called on an engine built for a page limit
    [maxPages >= 0], the result accumulator holds at most [maxPages]
    pages in every state the loop passes through (its final state
    included), and so does the sequence [crawl] returns. *)
Theorem C1_results_within_maxPages
    (md mp : option Z) (s : State) (startUrl : string) :
  0 <= default 1 mp ->
  engine_state md mp s ->
  (forall s' o, loop_state (addToQueue startUrl None s).1 s' o ->
                Z.of_nat (length (pages (this s'))) <= default 1 mp) /\
  (forall s' ps, crawl startUrl s = (s', Return ps) ->
                 Z.of_nat (length ps) <= default 1 mp).
Proof.
  intros Hmp Hs.
  pose proof (engine_state_within_budget md mp s Hmp Hs) as Hb.
  pose proof (engine_state_config md mp s Hs) as [_ Hc].
  assert (G : forall s' o, loop_state (addToQueue startUrl None s).1 s' o ->
                Z.of_nat (length (pages (this s'))) <= default 1 mp).
  { intros s' o Hl.
    pose proof (loop_state_config _ _ _ Hl) as [_ Hc'].
    simpl in Hc'. rewrite Hc in Hc'. rewrite <- Hc'.
    apply (loop_state_keeps within_budget (addToQueue startUrl None s).1 s' o);
      [apply within_budget_kept|exact Hb|exact Hl]. }
  split; [exact G|].
  intros s' ps Hr. apply crawl_returns in Hr as (-> & _ & ->).
  eapply G, crawl_loop_final.
Qed.

(** C2.  During any call of [crawl], in every state of the loop the
    addresses of the accumulated pages are pairwise distinct, they are
    exactly the addresses fetched (each fetched once) and exactly the
    members of the seen set; a front entry whose address is in the seen
    set is dropped with no fetch and no page, and one that is processed
    was not in the seen set and is put there as its page is fetched.
    So the returned sequence names no address twice. *)
Theorem C2_no_address_twice
    (md mp : option Z) (s : State) (startUrl : string) :
  engine_state md mp s ->
  (forall s' o, loop_state (addToQueue startUrl None s).1 s' o ->
     NoDup (url <$> pages (this s')) /\
     e_url <$> fetches s' = url <$> pages (this s') /\
     (forall u, u ∈ seen (this s') <-> u ∈ url <$> pages (this s')) /\
     (forall e rest, queue (this s') = e :: rest -> e_url e ∈ seen (this s') ->
        exists s2, crawl_body s' = (s2, Return tt) /\
                   queue (this s2) = rest /\
                   fetches s2 = fetches s' /\
                   pages (this s2) = pages (this s') /\
                   seen (this s2) = seen (this s')) /\
     (forall e rest s2 o2, queue (this s') = e :: rest ->
        crawl_body s' = (s2, o2) -> (fetches s2 <> fetches s') ->
        (e_url e ∉ seen (this s')) /\
        (e_url e ∈ seen (this s2)) /\
        fetches s2 = fetches s' ++ [e])) /\
  (forall s' ps, crawl startUrl s = (s', Return ps) -> NoDup (url <$> ps)).
Proof.
  intros Hs. pose proof (engine_state_seen_once md mp s Hs) as Ho.
  assert (G : forall s' o, loop_state (addToQueue startUrl None s).1 s' o ->
                           seen_once s').
  { intros s' o Hl.
    apply (loop_state_keeps seen_once (addToQueue startUrl None s).1 s' o);
      [apply seen_once_kept|exact Ho|exact Hl]. }
  split.
  - intros s' o Hl. destruct (G s' o Hl) as (Hnd & Hf & Hsn).
    split_and!; [done..| |].
    + intros e rest Hq Hin. exists (dropped s' rest).
      split_and!; [|done..]. apply crawl_body_skip with e; auto.
    + intros e rest s2 o2 Hq Hb Hne.
      apply crawl_body_step in Hb; [|by rewrite Hq].
      destruct Hb as [e' rest' Hq' _ | e' rest' urls Hq' _ Hn _ | e' rest' Hq' _ Hn _];
        rewrite Hq in Hq'; injection Hq' as <- <-; simpl in *; [done| |];
        (split_and!; [done| |done]);
        apply elem_of_union; right; by apply elem_of_singleton.
  - intros s' ps Hr. apply crawl_returns in Hr as (-> & _ & ->).
    eapply G, crawl_loop_final.
Qed.

(** C3 (amended).  In a crawl from [startUrl] on a newly constructed
    engine with depth limit [D], every fetched entry has depth at most
    [D] and lies on a path of exactly that many links from [startUrl];
    the accumulated pages are the pages of these entries; so every
    returned page is at most [D] link hops from [startUrl].  On any
    engine, in any state, a front entry deeper than the depth limit is
    dropped with no fetch, no page and no change of the seen set. *)
Theorem C3_pages_within_maxDepth (md mp : option Z) (startUrl : string) :
  (forall s' o, loop_state (addToQueue startUrl None (new_State md mp)).1 s' o ->
     e_url <$> fetches s' = url <$> pages (this s') /\
     Forall (fun e => depth e <= default 2 md /\
                      exists k : nat, depth e = Z.of_nat k /\ hops startUrl k (e_url e))
            (fetches s') /\
     (forall e rest, queue (this s') = e :: rest -> depth e > default 2 md ->
        exists s2, crawl_body s' = (s2, Return tt) /\
                   queue (this s2) = rest /\
                   fetches s2 = fetches s' /\
                   pages (this s2) = pages (this s'))) /\
  (forall s' ps p, crawl startUrl (new_State md mp) = (s', Return ps) -> p ∈ ps ->
     exists k : nat, Z.of_nat k <= default 2 md /\ hops startUrl k (url p)) /\
  (forall s e rest, queue (this s) = e :: rest -> depth e > maxDepth (this s) ->
     exists s2, crawl_body s = (s2, Return tt) /\
                queue (this s2) = rest /\
                fetches s2 = fetches s /\
                pages (this s2) = pages (this s) /\
                seen (this s2) = seen (this s)).
Proof.
  set (s0 := (addToQueue startUrl None (new_State md mp)).1).
  assert (G : forall s' o, loop_state s0 s' o ->
     maxDepth (this s') = default 2 md /\ seen_once s' /\ depth_sound startUrl s').
  { intros s' o Hl. split_and!.
    - by destruct (loop_state_config _ _ _ Hl) as [-> _].
    - apply (loop_state_keeps seen_once s0 s' o); [apply seen_once_kept| |exact Hl].
      change (seen_once (new_State md mp)).
      apply (engine_state_seen_once md mp). constructor.
    - apply (loop_state_keeps (depth_sound startUrl) s0 s' o);
        [apply depth_sound_kept|apply first_call_depth_sound|exact Hl]. }
  split_and!.
  - intros s' o Hl. destruct (G s' o Hl) as (Hmd & (_ & Hf & _) & (Hd & _)).
    split_and!; [done| |].
    + rewrite <- Hmd. exact Hd.
    + intros e rest Hq Hdeep. exists (dropped s' rest).
      split_and!; [|done..]. apply crawl_body_skip with e; [done|].
      left. by rewrite Hmd.
  - intros s' ps p Hr Hp. apply crawl_returns in Hr as (-> & _ & ->).
    destruct (G _ _ (proj1 (crawl_loop_final s0))) as (Hmd & (_ & Hf & _) & (Hd & _)).
    fold s0 in Hp.
    assert (Hu : url p ∈ e_url <$> fetches (crawl_loop s0).1).
    { rewrite Hf. by apply list_elem_of_fmap_2. }
    apply list_elem_of_fmap in Hu as (e & He & Hin).
    rewrite Forall_forall in Hd. destruct (Hd e Hin) as (Hle & k & Hk & Hh).
    exists k. rewrite He. split; [lia|done].
  - intros s e rest Hq Hdeep. exists (dropped s rest).
    split_and!; [|done..]. apply crawl_body_skip with e; [done|by left].
Qed.

(** C5 (amended).  The frontier is a first-in first-out queue: on any
    engine the body always takes the front entry, and when it processes
    an entry of depth [d] it appends every extracted address, in order
    and unfiltered, at depth [d + 1] behind the entries already waiting.
    In a crawl on a newly constructed engine the depths of the fetched
    entries, whose pages are the accumulated pages in the same order,
    never decrease: every page of depth [k] comes before any page of
    depth [k + 1]. *)
Theorem C5_fifo_breadth_first (md mp : option Z) (startUrl : string) :
  (forall s e rest urls,
     queue (this s) = e :: rest ->
     depth e <= maxDepth (this s) -> e_url e ∉ seen (this s) ->
     extractUrls (fetchPage (e_url e)) (e_url e) = Return urls ->
     exists s2, crawl_body s = (s2, Return tt) /\
                queue (this s2) = rest ++ ((fun u => mkEntry u (depth e + 1)) <$> urls) /\
                fetches s2 = fetches s ++ [e]) /\
  (forall s e rest,
     queue (this s) = e :: rest ->
     depth e > maxDepth (this s) \/ e_url e ∈ seen (this s) ->
     exists s2, crawl_body s = (s2, Return tt) /\ queue (this s2) = rest /\
                fetches s2 = fetches s) /\
  (forall s' o, loop_state (addToQueue startUrl None (new_State md mp)).1 s' o ->
     url <$> pages (this s') = e_url <$> fetches s' /\
     StronglySorted Z.le (depth <$> fetches s')) /\
  (forall s' ps, crawl startUrl (new_State md mp) = (s', Return ps) ->
     url <$> ps = e_url <$> fetches s' /\
     StronglySorted Z.le (depth <$> fetches s')).
Proof.
  set (s0 := (addToQueue startUrl None (new_State md mp)).1).
  assert (G : forall s' o, loop_state s0 s' o ->
     url <$> pages (this s') = e_url <$> fetches s' /\
     StronglySorted Z.le (depth <$> fetches s')).
  { intros s' o Hl. split.
    - assert (Hso : seen_once s').
      { apply (loop_state_keeps seen_once s0 s' o); [apply seen_once_kept| |exact Hl].
        change (seen_once (new_State md mp)).
        apply (engine_state_seen_once md mp). constructor. }
      by destruct Hso as (_ & -> & _).
    - assert (Hbf : breadth_first s').
      { apply (loop_state_keeps breadth_first s0 s' o);
          [apply breadth_first_kept|apply first_call_breadth_first|exact Hl]. }
      destruct Hbf as [Hs _]. rewrite fmap_app in Hs.
      by apply StronglySorted_app_1_l in Hs. }
  split_and!.
  - intros s e rest urls Hq Hd Hn Hx. eexists. split_and!.
    + rewrite (crawl_body_visit s e rest) by done. rewrite Hx. reflexivity.
    + done.
    + done.
  - intros s e rest Hq Hg. exists (dropped s rest).
    split_and!; [|done..]. by apply crawl_body_skip with e.
  - exact G.
  - intros s' ps Hr. apply crawl_returns in Hr as (-> & _ & ->).
    eapply G, crawl_loop_final.
Qed.

(** C7.  With [maxPages = 0] a new engine returns the empty sequence at
    once: the guard of the loop is false at the first test, the seed
    entry is still at the front of the frontier and nothing has been
    fetched or marked as seen.  The same holds for every later call on
    such an engine: it returns the empty sequence and only lengthens the
    frontier by its seed entry. *)
Theorem C7_maxPages_zero_returns_empty (md : option Z) (startUrl : string) :
  crawl startUrl (new_State md (Some 0))
  = (mkState (mkCrawler ∅ [] [mkEntry startUrl 0] (default 2 md) 0) [], Return []) /\
  shouldContinueCrawling (this (addToQueue startUrl None (new_State md (Some 0))).1) = false /\
  (forall s, engine_state md (Some 0) s ->
     crawl startUrl s = ((addToQueue startUrl None s).1, Return []) /\
     fetches s = []).
Proof.
  assert (Hg : shouldContinueCrawling
                 (this (addToQueue startUrl None (new_State md (Some 0))).1) = false)
    by reflexivity.
  split_and!; [|exact Hg|].
  - rewrite crawl_eq. cbv zeta. rewrite (crawl_loop_done _ Hg). reflexivity.
  - intros s Hs.
    pose proof (engine_state_within_budget md (Some 0) s ltac:(done) Hs) as Hb.
    pose proof (engine_state_config md (Some 0) s Hs) as [_ Hc].
    pose proof (engine_state_seen_once md (Some 0) s Hs) as (_ & Hf & _).
    unfold within_budget in Hb. rewrite Hc in Hb. simpl in Hb.
    assert (Hp : pages (this s) = []) by (apply nil_length_inv; lia).
    rewrite Hp in Hf. apply fmap_nil_inv in Hf.
    split; [|exact Hf].
    rewrite crawl_eq. cbv zeta. rewrite crawl_loop_done.
    + simpl. by rewrite Hp.
    + unfold shouldContinueCrawling. simpl. rewrite Hc, Hp.
      apply andb_false_iff. right. by apply bool_decide_eq_false.
Qed.

(** The accumulator only grows and the seen set only gains members
    while the body runs. *)
Lemma body_extends (s0 : State) :
  body_keeps (fun s => (exists more, pages (this s) = pages (this s0) ++ more) /\
                       seen (this s0) ⊆ seen (this s)).
Proof.
  intros s s' o [[more Hm] Hsub] Hg Hb.
  apply guarded_body_step in Hb as [Hb _]; [|done].
  destruct Hb; simpl; [eauto| |]; (split; [|set_solver]);
    eexists; rewrite Hm, <- app_assoc; reflexivity.
Qed.

(** C4 (amended).  [fetchPage] hands on the body text of any response,
    whatever its status, and the empty string when [fetch] or
    [response.text()] throws; it cannot throw itself.  When the address
    [u] of a processed entry fails in this way, and empty markup has no
    anchors, the body of the loop completes normally with the page
    [{u, parseHtml("")}] appended and nothing enqueued, so the loop goes
    on; a new engine with [maxDepth >= 0] and [maxPages >= 1] crawling
    from such a [u] returns exactly that one page. *)
Theorem C4_thrown_fetch_recorded_as_empty_page :
  (forall u status text, fetch u = Responded status text -> fetchPage u = text) /\
  (forall u, fetch u = Rejected ->
     fetchPage u = "" /\
     (anchorHrefs "" = [] ->
        (forall s e rest,
           e_url e = u -> queue (this s) = e :: rest ->
           depth e <= maxDepth (this s) -> u ∉ seen (this s) ->
           crawl_body s = (recorded s e rest, Return tt) /\
           pages (this (recorded s e rest))
           = pages (this s) ++ [mkPage u (parseHtml "")] /\
           (shouldContinueCrawling (this s) = true ->
            crawl_loop s = crawl_loop (recorded s e rest))) /\
        (forall md mp, 0 <= default 2 md -> 1 <= default 1 mp ->
           (crawl u (new_State md mp)).2 = Return [mkPage u (parseHtml "")]))).
Proof.
  split.
  { intros u status text H. unfold fetchPage. by rewrite H. }
  intros u Hu.
  assert (Hf : fetchPage u = "") by (unfold fetchPage; by rewrite Hu).
  split; [exact Hf|]. intros Ha.
  assert (Hx : extractUrls "" u = Return []) by (unfold extractUrls; by rewrite Ha).
  assert (Hstep : forall s e rest,
           e_url e = u -> queue (this s) = e :: rest ->
           depth e <= maxDepth (this s) -> u ∉ seen (this s) ->
           crawl_body s = (recorded s e rest, Return tt)).
  { intros s e rest He Hq Hd Hn. subst u.
    rewrite (crawl_body_visit s e rest) by done.
    rewrite Hf, Hx. simpl. by rewrite app_nil_r. }
  split.
  - intros s e rest He Hq Hd Hn. split_and!.
    + by apply Hstep.
    + simpl. by rewrite He, Hf.
    + intros Hg. apply crawl_loop_step; [done|]. by apply Hstep.
  - intros md mp Hmd Hmp. rewrite crawl_eq. cbv zeta.
    set (s0 := (addToQueue u None (new_State md mp)).1).
    assert (Hb : crawl_body s0 = (recorded s0 (mkEntry u 0) [], Return tt)).
    { apply Hstep; [done|done|simpl; lia|set_solver]. }
    rewrite (crawl_loop_step s0 (recorded s0 (mkEntry u 0) []));
      [|unfold shouldContinueCrawling; simpl|exact Hb].
    + rewrite crawl_loop_done by reflexivity. simpl. by rewrite Hf.
    + apply bool_decide_eq_true. lia.
Qed.

(** C8 (amended).  The seen set, the result accumulator and the frontier
    are fields of the engine, empty when it is constructed (as in the
    one engine each call of [seed] builds) and never reset: a call of
    [crawl] in any state puts its seed entry behind the frontier left
    over, keeps the pages already accumulated as a prefix of its
    accumulator, and of the sequence it returns, and keeps every member of
    the seen set. *)
Theorem C8_accumulator_and_seen_set_persist
    (md mp : option Z) (s : State) (startUrl : string) :
  (seen (new_Crawler md mp) = ∅ /\ pages (new_Crawler md mp) = [] /\
   queue (new_Crawler md mp) = []) /\
  (seen (seed_crawler md mp) = ∅ /\ pages (seed_crawler md mp) = []) /\
  queue (this (addToQueue startUrl None s).1) = queue (this s) ++ [mkEntry startUrl 0] /\
  (exists more, pages (this (crawl startUrl s).1) = pages (this s) ++ more) /\
  seen (this s) ⊆ seen (this (crawl startUrl s).1) /\
  (forall s' ps, crawl startUrl s = (s', Return ps) ->
                 exists more, ps = pages (this s) ++ more).
Proof.
  assert (G : (exists more, pages (this (crawl startUrl s).1) = pages (this s) ++ more) /\
              seen (this s) ⊆ seen (this (crawl startUrl s).1)).
  { apply (crawl_keeps _ startUrl s (body_extends s)); [done|].
    split; [|done]. exists []. by rewrite app_nil_r. }
  destruct G as [G1 G2].
  split_and!; [done..|].
  intros s' ps Hr. rewrite Hr in G1. simpl in G1.
  apply crawl_returns in Hr as (_ & _ & ->). exact G1.
Qed.

End CrawlClaims.

(** ** The claims about the chunking pass and [seed] *)

Section SeedClaims.
Context {env : Collaborators}.

Lemma push_chunks_app (u : string) (chunks : list string) (documents : list Document) :
  push_chunks u chunks documents = documents ++ (mkDocument u <$> chunks).
Proof.
  revert documents. induction chunks as [|chunk rest IH]; intros documents; simpl.
  - by rewrite app_nil_r.
  - rewrite IH, <- app_assoc. reflexivity.
Qed.

Lemma chunk_pages_spec (splitter : Splitter) (pgs : list Page)
      (documents out : list Document) :
  chunk_pages splitter pgs documents = Return out <->
  exists chunkss,
    Forall2 (fun p cs => splitText splitter (content p) = Return cs) pgs chunkss /\
    out = documents ++ concat (zip_with page_documents pgs chunkss).
Proof.
  revert documents. induction pgs as [|p rest IH]; intros documents; simpl.
  - split.
    + intros [= <-]. exists []. split; [constructor|]. by rewrite app_nil_r.
    + intros (chunkss & HF & ->). apply Forall2_nil_inv_l in HF as ->.
      simpl. by rewrite app_nil_r.
  - destruct (splitText splitter (content p)) as [cs|] eqn:Hs.
    + rewrite IH, push_chunks_app. split.
      * intros (chunkss & HF & ->). exists (cs :: chunkss).
        split; [by constructor|]. simpl. by rewrite <- app_assoc.
      * intros (chunkss & HF & ->).
        apply Forall2_cons_inv_l in HF as (cs' & chunkss' & Hcs & HF & ->).
        rewrite Hs in Hcs. injection Hcs as <-.
        exists chunkss'. split; [done|]. simpl. by rewrite <- app_assoc.
    + split; [discriminate|].
      intros (chunkss & HF & _).
      apply Forall2_cons_inv_l in HF as (cs' & chunkss' & Hcs & _).
      rewrite Hs in Hcs. discriminate.
Qed.

Lemma chunk_pages_skip_empty (splitter : Splitter) (pre post : list Page)
      (p : Page) (documents : list Document) :
  splitText splitter (content p) = Return [] ->
  chunk_pages splitter (pre ++ p :: post) documents
  = chunk_pages splitter (pre ++ post) documents.
Proof.
  intros Hp. revert documents.
  induction pre as [|q pre IH]; intros documents; simpl.
  - by rewrite Hp.
  - destruct (splitText splitter (content q)); [apply IH|done].
Qed.

(** C6.  The chunking pass returns, when every [splitText] returns, the
    concatenation over the pages in their order of each page's chunks in
    the splitter's order, every one tagged with the address of its page,
    and it returns whenever every [splitText] does; a page with no
    chunks contributes nothing; [seed] runs the pass over the pages in
    the order [crawl] returned them. *)
Theorem C6_chunks_in_page_order_tagged (splitter : Splitter) (pgs : list Page) :
  (forall out,
     chunk_pages splitter pgs [] = Return out <->
     exists chunkss,
       Forall2 (fun p cs => splitText splitter (content p) = Return cs) pgs chunkss /\
       out = concat (zip_with (fun p cs => mkDocument (url p) <$> cs) pgs chunkss)) /\
  (forall out d,
     chunk_pages splitter pgs [] = Return out -> d ∈ out ->
     exists p cs, p ∈ pgs /\ splitText splitter (content p) = Return cs /\
                  doc_url d = url p /\ doc_content d ∈ cs) /\
  (forall pre p post,
     pgs = pre ++ p :: post -> splitText splitter (content p) = Return [] ->
     chunk_pages splitter pgs [] = chunk_pages splitter (pre ++ post) []) /\
  (forall startUrl md mp so s',
     crawl startUrl (mkState (seed_crawler md mp) []) = (s', Return pgs) ->
     RecursiveCharacterTextSplitter (splitterFields so) = Return splitter ->
     seed startUrl md mp so = chunk_pages splitter pgs []).
Proof.
  split_and!.
  - intros out. rewrite chunk_pages_spec. reflexivity.
  - intros out d Hc Hd. apply chunk_pages_spec in Hc as (chunkss & HF & ->).
    simpl in Hd. clear -HF Hd.
    induction HF as [|p cs pgs chunkss Hp HF IH]; simpl in Hd.
    + by apply elem_of_nil in Hd.
    + apply elem_of_app in Hd as [Hd|Hd].
      * apply list_elem_of_fmap in Hd as (c & -> & Hc).
        exists p, cs. split_and!; [by left|done..].
      * destruct (IH Hd) as (p' & cs' & Hin & ?). exists p', cs'.
        split; [by right|done].
  - intros pre p post -> Hp. by apply chunk_pages_skip_empty.
  - intros startUrl md mp so s' Hc Hs. unfold seed. cbv zeta.
    rewrite Hc, Hs. reflexivity.
Qed.

End SeedClaims.

Section DefaultsClaims.
Context {env : Collaborators}.

(** C9.  [seed] with [maxDepth], [maxPages] or [splitterOptions] omitted
    behaves as with [maxDepth = 2], [maxPages = 1] and no splitter
    options: its engine has those two limits, and the splitter is
    constructed from fields in which [chunkSize] is 1000 and
    [chunkOverlap] is 200; every field present in [splitterOptions]
    replaces the literal one, and the other literal ones stay. *)
Theorem C9_seed_defaults :
  (forall u mp so, seed u None mp so = seed u (Some 2) mp so) /\
  (forall u md so, seed u md None so = seed u md (Some 1) so) /\
  (forall u md mp, seed u md mp None = seed u md mp (Some ∅)) /\
  seed_crawler None None = mkCrawler ∅ [] [] 2 1 /\
  new_Crawler None None = mkCrawler ∅ [] [] 2 1 /\
  (forall u md mp so,
     seed u md mp so =
       match crawl u (mkState (mkCrawler ∅ [] [] (default 2 md) (default 1 mp)) []) with
       | (_, Throw) => Throw
       | (_, Return pgs) =>
           match RecursiveCharacterTextSplitter (splitterFields so) with
           | Throw => Throw
           | Return splitter => chunk_pages splitter pgs []
           end
       end) /\
  splitterFields None !! "chunkSize" = Some (VNum 1000) /\
  splitterFields None !! "chunkOverlap" = Some (VNum 200) /\
  (forall k, k <> "chunkSize" -> k <> "chunkOverlap" -> splitterFields None !! k = None) /\
  (forall o k v, o !! k = Some v -> splitterFields (Some o) !! k = Some v) /\
  (forall o k, o !! k = None -> splitterFields (Some o) !! k = splitterFields None !! k).
Proof.
  split_and!; try reflexivity.
  - intros k H1 H2. unfold splitterFields, splitterDefaults. simpl.
    rewrite (left_id_L ∅ (∪)). by rewrite !lookup_insert_ne.
  - intros o k v H. unfold splitterFields. simpl.
    by apply lookup_union_Some_l.
  - intros o k H. unfold splitterFields. simpl.
    rewrite (left_id_L ∅ (∪)). by apply lookup_union_r.
Qed.

End DefaultsClaims.

(** ** The claim about [sliceIntoChunks] *)

Section SliceClaims.
Context {T : Type}.
Implicit Types (arr : list T) (chunkSize : Z).

Lemma ceil_div_bounds (a b : Z) :
  0 <= a -> 1 <= b ->
  0 <= ceil_div a b /\ a <= ceil_div a b * b < a + b.
Proof.
  intros Ha Hb. unfold ceil_div.
  pose proof (Z.div_mod (- a) b ltac:(lia)) as Hdm.
  pose proof (Z.mod_pos_bound (- a) b ltac:(lia)) as Hm.
  nia.
Qed.

(** The [i]-th slice taken by [sliceIntoChunks], as a window of the
    array. *)
Lemma js_slice_window arr chunkSize (i : nat) :
  1 <= chunkSize ->
  js_slice arr (Z.of_nat i * chunkSize) ((Z.of_nat i + 1) * chunkSize)
  = take (Z.to_nat chunkSize) (drop (i * Z.to_nat chunkSize) arr).
Proof.
  intros Hc. unfold js_slice.
  set (len := Z.of_nat (length arr)).
  assert (Hs : (Z.of_nat i * chunkSize <? 0) = false) by (apply Z.ltb_ge; nia).
  assert (He : ((Z.of_nat i + 1) * chunkSize <? 0) = false) by (apply Z.ltb_ge; nia).
  rewrite Hs, He.
  destruct (decide (len <= Z.of_nat i * chunkSize)) as [Hout|Hin].
  - rewrite !Z.min_r by nia. rewrite Z.sub_diag. simpl.
    rewrite (drop_ge arr (i * Z.to_nat chunkSize)) by (subst len; nia).
    by rewrite take_nil.
  - rewrite (Z.min_l (Z.of_nat i * chunkSize)) by lia.
    replace (Z.to_nat (Z.of_nat i * chunkSize)) with (i * Z.to_nat chunkSize)%nat by nia.
    destruct (decide ((Z.of_nat i + 1) * chunkSize <= len)) as [Hfull|Hlast].
    + rewrite Z.min_l by lia. f_equal. nia.
    + rewrite Z.min_r by lia.
      rewrite !take_ge; [done| |]; rewrite length_drop; subst len; nia.
Qed.

Lemma concat_windows arr (k n : nat) :
  concat ((fun i : nat => take k (drop (i * k) arr)) <$> seq 0 n) = take (n * k) arr.
Proof.
  induction n as [|n IH]; [done|].
  rewrite seq_S, fmap_app, concat_app, IH. simpl. rewrite app_nil_r.
  rewrite take_take_drop. f_equal. lia.
Qed.

Lemma sliceIntoChunks_windows arr chunkSize :
  1 <= chunkSize ->
  sliceIntoChunks arr chunkSize
  = Return ((fun i : nat => take (Z.to_nat chunkSize) (drop (i * Z.to_nat chunkSize) arr))
              <$> seq 0 (Z.to_nat (ceil_div (Z.of_nat (length arr)) chunkSize))).
Proof.
  intros Hc. unfold sliceIntoChunks.
  destruct (Z.eqb_spec chunkSize 0) as [?|_]; [lia|].
  f_equal. unfold seqZ. rewrite <- list_fmap_compose.
  apply list_fmap_ext. intros _ i _. simpl.
  rewrite Z.add_0_r. by apply js_slice_window.
Qed.

(** C10.  For an integer [chunkSize >= 1], [sliceIntoChunks] returns
    chunks whose concatenation in order is the array; no chunk is longer
    than [chunkSize], every chunk but the last has exactly that length,
    no chunk is empty, and the empty array gives no chunk at all. *)
Theorem C10_sliceIntoChunks_partitions arr chunkSize :
  1 <= chunkSize ->
  exists chunks,
    sliceIntoChunks arr chunkSize = Return chunks /\
    concat chunks = arr /\
    Forall (fun c => 1 <= Z.of_nat (length c) <= chunkSize) chunks /\
    (forall i c, chunks !! i = Some c -> (S i < length chunks)%nat ->
                 Z.of_nat (length c) = chunkSize) /\
    (arr = [] -> chunks = []).
Proof.
  intros Hc. eexists. split; [by apply sliceIntoChunks_windows|].
  set (len := Z.of_nat (length arr)).
  pose proof (ceil_div_bounds len chunkSize ltac:(lia) Hc) as (Hn0 & Hup & Hlow).
  set (k := Z.to_nat chunkSize).
  set (n := Z.to_nat (ceil_div len chunkSize)).
  assert (Hk : Z.of_nat k = chunkSize) by (subst k; lia).
  assert (Hn : Z.of_nat n = ceil_div len chunkSize) by (subst n; lia).
  rewrite <- Hn, <- Hk in Hup, Hlow. clearbody n k. subst len.
  assert (Hwin : forall i, (i < n)%nat -> (i * k < length arr)%nat).
  { intros i Hi. assert ((i + 1) * k <= n * k)%nat by nia. lia. }
  split_and!.
  - rewrite concat_windows. apply take_ge. nia.
  - apply Forall_fmap, Forall_forall. intros i Hi. simpl.
    apply elem_of_seq in Hi. rewrite length_take, length_drop.
    specialize (Hwin i ltac:(lia)). lia.
  - intros i c Hi Hlt. rewrite length_fmap, length_seq in Hlt.
    rewrite list_lookup_fmap in Hi.
    rewrite lookup_seq_lt in Hi by lia. simpl in Hi. injection Hi as <-.
    rewrite length_take, length_drop.
    specialize (Hwin (S i) Hlt). nia.
  - intros ->. simpl in *. assert (n = 0%nat) as -> by nia. reflexivity.
Qed.

End SliceClaims.

(** ** The claims at work on the small web *)

Section OnTheDemoWeb.
Import Demo.
#[local] Existing Instance demo.

Lemma C1_results_within_maxPages_witness :
  0 <= default 1 (Some 2) /\
  engine_state None (Some 2) (crawl "c" (new_State None (Some 2))).1 /\
  ((forall s' o,
      loop_state (addToQueue "a" None (crawl "c" (new_State None (Some 2))).1).1 s' o ->
      Z.of_nat (length (pages (this s'))) <= default 1 (Some 2)) /\
   (forall s' ps,
      crawl "a" (crawl "c" (new_State None (Some 2))).1 = (s', Return ps) ->
      Z.of_nat (length ps) <= default 1 (Some 2))).
Proof.
  split; [simpl; lia|]. split; [repeat constructor|].
  apply (C1_results_within_maxPages None (Some 2)); [simpl; lia|repeat constructor].
Defined.

Lemma C2_no_address_twice_witness :
  engine_state None (Some 3) (new_State None (Some 3)) /\
  NoDup (url <$> [mkPage "a" "<a b><a c><a a>"; mkPage "b" "<a d><a a>";
                  mkPage "c" "Not Found <a b>"]).
Proof.
  split; [constructor|].
  apply (proj2 (C2_no_address_twice None (Some 3) (new_State None (Some 3)) "a"
                  (engine_new None (Some 3)))
               (crawl "a" (new_State None (Some 3))).1).
  vm_compute. reflexivity.
Defined.

Lemma C3_pages_within_maxDepth_witness :
  exists k : nat, Z.of_nat k <= default 2 (Some 1) /\ hops "a" k "c".
Proof.
  apply (proj1 (proj2 (C3_pages_within_maxDepth (Some 1) (Some 3) "a"))
               (crawl "a" (new_State (Some 1) (Some 3))).1
               [mkPage "a" "<a b><a c><a a>"; mkPage "b" "<a d><a a>";
                mkPage "c" "Not Found <a b>"]
               (mkPage "c" "Not Found <a b>")).
  - vm_compute. reflexivity.
  - do 2 right. left.
Defined.

(** From [d], which cannot be fetched, no link leads anywhere. *)
Lemma demo_paths_from_d (k : nat) (v : string) : hops "d" k v -> v = "d".
Proof.
  induction 1 as [|k u v _ IH (urls & Hx & Hv)]; [done|]. subst u.
  vm_compute in Hx. injection Hx as <-. by apply elem_of_nil in Hv.
Qed.

(** C3, as stated, fails on an engine used before: a default engine that
    has crawled from [a] returns, when it crawls from [d], the page of
    [a], and no path of links leads from [d] to [a]. *)
Lemma C3_counterexample_reused_engine_unreachable_page :
  (crawl "d" (crawl "a" (new_State None None)).1).2
  = Return [mkPage "a" "<a b><a c><a a>"] /\
  ~ exists k : nat, Z.of_nat k <= default 2 None /\
                    hops "d" k (url (mkPage "a" "<a b><a c><a a>")).
Proof.
  split; [vm_compute; reflexivity|].
  intros (k & _ & Hh). apply demo_paths_from_d in Hh. discriminate.
Qed.

(** C5, as stated, fails on an engine used before: an engine with
    [maxDepth = 1] and [maxPages = 4] that has crawled from [a] returns,
    when it crawls from [d], the pages of [a], [b], [c] and [d], fetched
    at depths 0, 1, 1 and 0: a page of depth 0 comes after pages of
    depth 1. *)
Lemma C5_counterexample_reused_engine_order :
  (crawl "d" (crawl "a" (new_State (Some 1) (Some 4))).1).2
  = Return [mkPage "a" "<a b><a c><a a>"; mkPage "b" "<a d><a a>";
            mkPage "c" "Not Found <a b>"; mkPage "d" ""] /\
  fetches (crawl "d" (crawl "a" (new_State (Some 1) (Some 4))).1).1
  = [mkEntry "a" 0; mkEntry "b" 1; mkEntry "c" 1; mkEntry "d" 0] /\
  ~ StronglySorted Z.le
      (depth <$> fetches (crawl "d" (crawl "a" (new_State (Some 1) (Some 4))).1).1).
Proof.
  assert (Hf : fetches (crawl "d" (crawl "a" (new_State (Some 1) (Some 4))).1).1
               = [mkEntry "a" 0; mkEntry "b" 1; mkEntry "c" 1; mkEntry "d" 0])
    by (vm_compute; reflexivity).
  split_and!; [vm_compute; reflexivity|exact Hf|].
  rewrite Hf. simpl. intros Hs.
  apply StronglySorted_cons in Hs as [_ Hs].
  apply StronglySorted_cons in Hs as [Hle _].
  apply Forall_cons in Hle as [_ Hle]. apply Forall_cons in Hle as [Hle _]. lia.
Qed.

(** C4, as stated, fails: the address [c] answers with status 404 and
    [fetchPage] hands on the text of the error page, not the empty
    string; the page is recorded with that text. *)
Lemma C4_counterexample_non_2xx_keeps_body :
  fetch "c" = Responded 404 "Not Found <a b>" /\
  fetchPage "c" <> "" /\
  (crawl "c" (new_State None None)).2 = Return [mkPage "c" "Not Found <a b>"].
Proof. split_and!; [reflexivity|discriminate|vm_compute; reflexivity]. Qed.

Lemma C4_thrown_fetch_recorded_as_empty_page_witness :
  fetch "d" = Rejected /\ anchorHrefs "" = [] /\
  fetchPage "d" = "" /\
  (crawl "d" (new_State (Some 0) (Some 1))).2 = Return [mkPage "d" (parseHtml "")].
Proof.
  split; [reflexivity|]. split; [reflexivity|].
  assert (Hd : fetch "d" = Rejected) by reflexivity.
  assert (Ha : anchorHrefs "" = []) by reflexivity.
  destruct (proj2 C4_thrown_fetch_recorded_as_empty_page "d" Hd) as [Hf Hrest].
  split; [exact Hf|].
  apply (proj2 (Hrest Ha) (Some 0) (Some 1)); simpl; lia.
Defined.

Lemma C5_fifo_breadth_first_witness :
  url <$> [mkPage "a" "<a b><a c><a a>"; mkPage "b" "<a d><a a>";
           mkPage "c" "Not Found <a b>"; mkPage "d" ""]
  = e_url <$> fetches (crawl "a" (new_State (Some 2) (Some 4))).1 /\
  StronglySorted Z.le (depth <$> fetches (crawl "a" (new_State (Some 2) (Some 4))).1).
Proof.
  apply (proj2 (proj2 (proj2 (C5_fifo_breadth_first (Some 2) (Some 4) "a")))).
  vm_compute. reflexivity.
Defined.

Lemma C6_chunks_in_page_order_tagged_witness :
  splitText (2%nat : @Splitter demo) (content (mkPage "d" "")) = Return [] /\
  chunk_pages (2%nat : @Splitter demo)
              [mkPage "x" "abc"; mkPage "d" ""; mkPage "y" "de"] []
  = chunk_pages (2%nat : @Splitter demo) ([mkPage "x" "abc"] ++ [mkPage "y" "de"]) [].
Proof.
  split; [reflexivity|].
  apply (proj1 (proj2 (proj2 (C6_chunks_in_page_order_tagged (2%nat : @Splitter demo)
           [mkPage "x" "abc"; mkPage "d" ""; mkPage "y" "de"])))
           [mkPage "x" "abc"] (mkPage "d" "") [mkPage "y" "de"]);
    reflexivity.
Defined.

Lemma C7_maxPages_zero_returns_empty_witness :
  engine_state None (Some 0) (crawl "a" (new_State None (Some 0))).1 /\
  crawl "b" (crawl "a" (new_State None (Some 0))).1
  = ((addToQueue "b" None (crawl "a" (new_State None (Some 0))).1).1, Return []) /\
  fetches (crawl "a" (new_State None (Some 0))).1 = [].
Proof.
  assert (H : engine_state None (Some 0) (crawl "a" (new_State None (Some 0))).1)
    by repeat constructor.
  split; [exact H|].
  exact (proj2 (proj2 (C7_maxPages_zero_returns_empty None "b")) _ H).
Defined.

(** C8, as stated, fails: a second [crawl] on the same engine starts
    with the first call's seen set and accumulator; with the page limit
    reached it fetches nothing and returns the first call's page, while
    the same call on a new engine returns the page of [b]. *)
Lemma C8_counterexample_second_crawl_carries_over :
  (crawl "a" (new_State None None)).2 = Return [mkPage "a" "<a b><a c><a a>"] /\
  elements (seen (this (crawl "a" (new_State None None)).1)) = ["a"] /\
  (crawl "b" (crawl "a" (new_State None None)).1).2
  = Return [mkPage "a" "<a b><a c><a a>"] /\
  (crawl "b" (new_State None None)).2 = Return [mkPage "b" "<a d><a a>"].
Proof. split_and!; vm_compute; reflexivity. Qed.

Lemma C8_accumulator_and_seen_set_persist_witness :
  crawl "a" (crawl "c" (new_State (Some 2) (Some 2))).1
  = ((crawl "a" (crawl "c" (new_State (Some 2) (Some 2))).1).1,
     Return [mkPage "c" "Not Found <a b>"; mkPage "b" "<a d><a a>"]) /\
  exists more,
    [mkPage "c" "Not Found <a b>"; mkPage "b" "<a d><a a>"]
    = pages (this (crawl "c" (new_State (Some 2) (Some 2))).1) ++ more.
Proof.
  assert (H : crawl "a" (crawl "c" (new_State (Some 2) (Some 2))).1
              = ((crawl "a" (crawl "c" (new_State (Some 2) (Some 2))).1).1,
                 Return [mkPage "c" "Not Found <a b>"; mkPage "b" "<a d><a a>"]))
    by (vm_compute; reflexivity).
  split; [exact H|].
  exact (proj2 (proj2 (proj2 (proj2 (proj2
           (C8_accumulator_and_seen_set_persist (Some 2) (Some 2)
              (crawl "c" (new_State (Some 2) (Some 2))).1 "a"))))) _ _ H).
Defined.

Lemma C9_seed_defaults_witness :
  ({[ "chunkSize" := VNum 8 ]} : gmap string JsValue) !! "chunkSize" = Some (VNum 8) /\
  ({[ "chunkSize" := VNum 8 ]} : gmap string JsValue) !! "chunkOverlap" = None /\
  splitterFields (Some {[ "chunkSize" := VNum 8 ]}) !! "chunkSize" = Some (VNum 8) /\
  splitterFields (Some {[ "chunkSize" := VNum 8 ]}) !! "chunkOverlap"
  = splitterFields None !! "chunkOverlap".
Proof.
  destruct C9_seed_defaults as (_ & _ & _ & _ & _ & _ & _ & _ & _ & Hset & Hkeep).
  assert (H1 : ({[ "chunkSize" := VNum 8 ]} : gmap string JsValue) !! "chunkSize"
               = Some (VNum 8)) by reflexivity.
  assert (H2 : ({[ "chunkSize" := VNum 8 ]} : gmap string JsValue) !! "chunkOverlap"
               = None) by reflexivity.
  split; [exact H1|]. split; [exact H2|].
  split; [exact (Hset _ _ _ H1)|exact (Hkeep _ _ H2)].
Defined.

Lemma C10_sliceIntoChunks_partitions_witness :
  1 <= 3 /\
  exists chunks,
    sliceIntoChunks [1; 2; 3; 4; 5; 6; 7] 3 = Return chunks /\
    concat chunks = [1; 2; 3; 4; 5; 6; 7] /\
    Forall (fun c => 1 <= Z.of_nat (length c) <= 3) chunks /\
    (forall i c, chunks !! i = Some c -> (S i < length chunks)%nat ->
                 Z.of_nat (length c) = 3) /\
    ([1; 2; 3; 4; 5; 6; 7] = [] -> chunks = []).
Proof.
  split; [lia|]. apply (C10_sliceIntoChunks_partitions [1; 2; 3; 4; 5; 6; 7] 3). lia.
Defined.

(** The slicer on seven elements by three. *)
Example sliceIntoChunks_seven_by_three :
  sliceIntoChunks [1; 2; 3; 4; 5; 6; 7] 3 = Return [[1; 2; 3]; [4; 5; 6]; [7]].
Proof. reflexivity. Qed.

(** A crawl of the small web with room for three pages. *)
Example crawl_demo_three_pages :
  (crawl "a" (new_State (Some 2) (Some 3))).2
  = Return [mkPage "a" "<a b><a c><a a>"; mkPage "b" "<a d><a a>";
            mkPage "c" "Not Found <a b>"].
Proof. vm_compute. reflexivity. Qed.

End OnTheDemoWeb.


(** * Further properties of the code *)

(** ** Link extraction *)

Section ExtractFacts.
Context {env : Collaborators}.

Lemma extractUrls_each_spec (hrefs : list string) (baseUrl : string) (acc : list string) :
  extractUrls_each hrefs baseUrl acc
  = match mapM (fun href => URL_href href baseUrl)
               (filter (fun href => href <> "") hrefs) with
    | Some urls => Return (acc ++ urls)
    | None => Throw
    end.
Proof.
  revert acc. induction hrefs as [|href rest IH]; intros acc; simpl.
  - by rewrite app_nil_r.
  - destruct (String.eqb_spec href "") as [->|Hne].
    + rewrite filter_cons_False by (intros H; by apply H). apply IH.
    + rewrite filter_cons_True by done. simpl.
      destruct (URL_href href baseUrl) as [u|]; simpl; [|done].
      rewrite IH. destruct (mapM _ _); simpl; [|done].
      by rewrite <- app_assoc.
Qed.

(** X1.  [extractUrls] returns, in document order, the resolved address
    of every anchor whose [href] is not empty, and nothing else; it
    throws exactly when the address of one of these cannot be
    resolved. *)
Theorem X1_extractUrls_resolves_nonempty_hrefs (html baseUrl : string) :
  (forall urls,
     extractUrls html baseUrl = Return urls <->
     Forall2 (fun href u => URL_href href baseUrl = Some u)
             (filter (fun href => href <> "") (anchorHrefs html)) urls) /\
  (extractUrls html baseUrl = Throw <->
   exists href, href ∈ anchorHrefs html /\ href <> "" /\ URL_href href baseUrl = None).
Proof.
  unfold extractUrls. rewrite extractUrls_each_spec. split.
  - intros urls. rewrite <- mapM_Some.
    destruct (mapM _ _) as [us|]; simpl; split; congruence.
  - destruct (mapM _ _) as [us|] eqn:Hm; simpl.
    + split; [discriminate|]. intros (href & Hin & Hne & Hnone).
      apply mapM_Some in Hm.
      assert (Hf : href ∈ filter (fun href => href <> "") (anchorHrefs html))
        by (apply list_elem_of_filter; done).
      apply list_elem_of_lookup_1 in Hf as [i Hi].
      destruct (Forall2_lookup_l _ _ _ _ _ Hm Hi) as (u & _ & Hu).
      congruence.
    + split; [intros _|done].
      apply mapM_None in Hm. apply Exists_exists in Hm as (href & Hin & Hnone).
      apply list_elem_of_filter in Hin as [Hne Hin]. eauto.
Qed.

End ExtractFacts.

(** ** More about the crawl engine *)

Section MoreEngineFacts.
Context {env : Collaborators}.

Lemma content_faithful_kept : body_keeps content_faithful.
Proof.
  intros s s' o HI Hg Hb. apply guarded_body_step in Hb as [Hb _]; [|done].
  unfold content_faithful in *.
  destruct Hb; simpl; [done| |]; (apply Forall_app; split; [done|]);
    by apply Forall_singleton.
Qed.

Lemma engine_state_content_faithful (md mp : option Z) (s : State) :
  engine_state md mp s -> content_faithful s.
Proof.
  induction 1 as [|s u _ IH].
  - constructor.
  - apply crawl_keeps; [apply content_faithful_kept|done..].
Qed.

Lemma fetched_before_queued (s : State) (e f : Entry) :
  breadth_first s -> e ∈ fetches s -> f ∈ queue (this s) -> depth e <= depth f.
Proof.
  intros [Hs _] He Hf. rewrite fmap_app in Hs.
  eapply (StronglySorted_app_1_elem_of _ _ _ _ _ Hs); by apply list_elem_of_fmap_2.
Qed.

Lemma handled_step (s s' : State) (o : outcome unit) (v : string) (d : Z) :
  body_step s s' o -> seen_once s -> breadth_first s ->
  handled s v d -> handled s' v d.
Proof.
  intros Hb (_ & Hf & Hsn) Hbf Hh.
  destruct Hb as [e rest Hq Hg | e rest urls Hq _ _ _ | e rest Hq _ _ _];
    destruct Hh as [Hin|[Hdeep|(e' & He' & Hu & Hd)]]; unfold handled; simpl;
    try (rewrite Hq in Hin; apply elem_of_cons in Hin as [Heq|Hin]).
  - subst e. simpl in Hg. destruct Hg as [Hg|Hg]; [by right; left|].
    right; right. apply Hsn in Hg. rewrite <- Hf in Hg.
    apply list_elem_of_fmap in Hg as (e' & Hu & He').
    exists e'. split_and!; [done..|].
    apply (fetched_before_queued s e' (mkEntry v d)); [done..|].
    rewrite Hq. by left.
  - by left.
  - by right; left.
  - right; right. eauto.
  - right; right. exists e. subst e. simpl.
    split_and!; [apply elem_of_app; right; by left|done|lia].
  - left. apply elem_of_app. by left.
  - by right; left.
  - right; right. exists e'. split_and!; [apply elem_of_app; by left|done..].
  - right; right. exists e. subst e. simpl.
    split_and!; [apply elem_of_app; right; by left|done|lia].
  - by left.
  - by right; left.
  - right; right. exists e'. split_and!; [apply elem_of_app; by left|done..].
Qed.

Lemma exploring_kept (start : string) : body_keeps (exploring start).
Proof.
  intros s s' o (Hso & Hbf & Hds & [Hst Hlk]) Hg Hb.
  split_and!.
  - by apply (seen_once_kept s s' o).
  - by apply (breadth_first_kept s s' o).
  - by apply (depth_sound_kept start s s' o).
  - apply guarded_body_step in Hb as [Hb _]; [|done].
    split; [by apply (handled_step s s' o)|].
    intros e0 v He0 Hl.
    assert (Hold : e0 ∈ fetches s -> handled s' v (depth e0 + 1)).
    { intros Hin. apply (handled_step s s' o); auto. }
    destruct Hb as [e rest Hq _ | e rest urls Hq _ _ Hx | e rest Hq _ _ Hx];
      simpl in He0; [by apply Hold| |];
      (apply elem_of_app in He0 as [He0|He0]; [by apply Hold|]);
      apply list_elem_of_singleton in He0 as ->;
      destruct Hl as (urls' & Hx' & Hv); rewrite Hx in Hx'; [|discriminate].
    injection Hx' as <-. left. simpl. apply elem_of_app. right.
    by apply (list_elem_of_fmap_2 (fun u => mkEntry u (depth e + 1))).
Qed.

Lemma first_call_exploring (md mp : option Z) (start : string) :
  exploring start (addToQueue start None (new_State md mp)).1.
Proof.
  split_and!.
  - change (seen_once (new_State md mp)).
    apply (engine_state_seen_once md mp). constructor.
  - apply first_call_breadth_first.
  - apply first_call_depth_sound.
  - split.
    + left. simpl. by left.
    + intros e v He. simpl in He. by apply elem_of_nil in He.
Qed.

(** The states of the loop of the first call on a new engine. *)
Lemma first_call_loop_state (md mp : option Z) (start : string) (s' : State)
      (o : outcome unit) :
  loop_state (addToQueue start None (new_State md mp)).1 s' o ->
  exploring start s' /\
  maxDepth (this s') = default 2 md /\ maxPages (this s') = default 1 mp.
Proof.
  intros Hl. split.
  - apply (loop_state_keeps (exploring start)
             (addToQueue start None (new_State md mp)).1 s' o);
      [apply exploring_kept|apply first_call_exploring|exact Hl].
  - by destruct (loop_state_config _ _ _ Hl) as [-> ->].
Qed.

(** A body that throws has just recorded the page whose links it could
    not extract. *)
Lemma loop_state_throw (s0 s' : State) :
  loop_state s0 s' Throw ->
  exists s e rest,
    loop_state s0 s (Return tt) /\ queue (this s) = e :: rest /\
    s' = recorded s e rest /\
    extractUrls (fetchPage (e_url e)) (e_url e) = Throw.
Proof.
  intros Hl. inversion Hl as [|s s1 o Hprev Hg Hb]; subst.
  apply guarded_body_step in Hb as [Hb _]; [|done].
  inversion Hb as [| |e rest Hq Hd Hn Hx]; subst.
  exists s, e, rest. done.
Qed.

End MoreEngineFacts.

Section MoreEngineClaims.
Context {env : Collaborators}.

Lemma crawl_throws (startUrl : string) (s s' : State) :
  crawl startUrl s = (s', Throw) ->
  loop_state (addToQueue startUrl None s).1 s' Throw.
Proof.
  rewrite crawl_eq. cbv zeta. intros H.
  pose proof (proj1 (crawl_loop_final (addToQueue startUrl None s).1)) as Hl.
  destruct (crawl_loop _) as [s1 [[]|]]; simpl in *; [discriminate|].
  by injection H as <-.
Qed.

Lemma first_call_returns (md mp : option Z) (start : string) (s' : State)
      (ps : list Page) :
  crawl start (new_State md mp) = (s', Return ps) ->
  exploring start s' /\ content_faithful s' /\
  maxDepth (this s') = default 2 md /\ maxPages (this s') = default 1 mp /\
  ps = pages (this s') /\ shouldContinueCrawling (this s') = false.
Proof.
  intros Hr. apply crawl_returns in Hr as (-> & Ho & ->).
  destruct (crawl_loop_final (addToQueue start None (new_State md mp)).1) as [Hl Hg].
  destruct (first_call_loop_state md mp start _ _ Hl) as (He & Hd & Hp).
  split_and!; [done| |done..|by apply Hg].
  apply (loop_state_keeps content_faithful _ _ _ content_faithful_kept) in Hl; [done|].
  constructor.
Qed.

(** What a false guard means. *)
Lemma guard_false (c : Crawler) :
  shouldContinueCrawling c = false ->
  queue c = [] \/ maxPages c <= Z.of_nat (length (pages c)).
Proof.
  unfold shouldContinueCrawling. intros H.
  apply andb_false_iff in H as [H|H]; apply bool_decide_eq_false in H.
  - left. destruct (queue c); [done|simpl in H; lia].
  - right. lia.
Qed.

(** X2.  During any call of [crawl] on any engine, every accumulated
    page holds as its content the conversion of what [fetchPage] yields
    for its address; so does every page [crawl] returns. *)
Theorem X2_page_content_is_converted_fetch
    (md mp : option Z) (s : State) (startUrl : string) :
  engine_state md mp s ->
  (forall s' o, loop_state (addToQueue startUrl None s).1 s' o ->
     Forall (fun p => content p = parseHtml (fetchPage (url p))) (pages (this s'))) /\
  (forall s' ps p, crawl startUrl s = (s', Return ps) -> p ∈ ps ->
     content p = parseHtml (fetchPage (url p))).
Proof.
  intros Hs. pose proof (engine_state_content_faithful md mp s Hs) as Hc.
  assert (G : forall s' o, loop_state (addToQueue startUrl None s).1 s' o ->
                           content_faithful s').
  { intros s' o Hl.
    apply (loop_state_keeps content_faithful (addToQueue startUrl None s).1 s' o);
      [apply content_faithful_kept|exact Hc|exact Hl]. }
  split; [exact G|].
  intros s' ps p Hr Hp. apply crawl_returns in Hr as (-> & _ & ->).
  pose proof (G _ _ (proj1 (crawl_loop_final _))) as HF.
  unfold content_faithful in HF. rewrite Forall_forall in HF. by apply HF.
Qed.

(** X3.  When [crawl] returns, on any engine, the frontier is empty or
    the accumulator holds at least [maxPages] pages: it never stops
    early. *)
Theorem X3_crawl_stops_exhausted_or_full
    (startUrl : string) (s s' : State) (ps : list Page) :
  crawl startUrl s = (s', Return ps) ->
  queue (this s') = [] \/ maxPages (this s) <= Z.of_nat (length ps).
Proof.
  intros Hr. apply crawl_returns in Hr as (-> & Ho & ->).
  destruct (crawl_loop_final (addToQueue startUrl None s).1) as [Hl Hg].
  destruct (loop_state_config _ _ _ Hl) as [_ Hp]. simpl in Hp.
  rewrite <- Hp. apply guard_false. by apply Hg.
Qed.

(** X5.  On an engine whose accumulator already holds [maxPages] pages or
    more, [crawl] fetches nothing: it returns the pages already held and
    only appends its seed entry to the frontier. *)
Theorem X5_full_engine_returns_old_pages (startUrl : string) (s : State) :
  maxPages (this s) <= Z.of_nat (length (pages (this s))) ->
  crawl startUrl s = ((addToQueue startUrl None s).1, Return (pages (this s))) /\
  fetches (crawl startUrl s).1 = fetches s /\
  queue (this (crawl startUrl s).1) = queue (this s) ++ [mkEntry startUrl 0].
Proof.
  intros Hfull.
  assert (Hc : crawl startUrl s
               = ((addToQueue startUrl None s).1, Return (pages (this s)))).
  { rewrite crawl_eq. cbv zeta. rewrite crawl_loop_done; [done|].
    unfold shouldContinueCrawling. apply andb_false_iff. right.
    apply bool_decide_eq_false. simpl. lia. }
  rewrite Hc. done.
Qed.

End MoreEngineClaims.

(** ** The first call: depth limits and exhaustive crawls *)

Section FirstCallClaims.
Context {env : Collaborators}.

Lemma hops_zero (start v : string) : hops start 0 v -> v = start.
Proof. by inversion 1. Qed.

(** Entries of one list with distinct addresses are equal when their
    addresses are. *)
Lemma same_address_same_entry (l : list Entry) (e e' : Entry) :
  NoDup (e_url <$> l) -> e ∈ l -> e' ∈ l -> e_url e = e_url e' -> e = e'.
Proof.
  induction l as [|a l IH]; intros Hnd He He' Hu; [by apply elem_of_nil in He|].
  simpl in Hnd. apply NoDup_cons in Hnd as [Hna Hnd].
  apply elem_of_cons in He as [->|He]; apply elem_of_cons in He' as [->|He'].
  - done.
  - exfalso. apply Hna. rewrite Hu. by apply list_elem_of_fmap_2.
  - exfalso. apply Hna. rewrite <- Hu. by apply list_elem_of_fmap_2.
  - by apply IH.
Qed.

(** Once the frontier is empty, every address within the depth limit has
    been fetched, at a depth no greater than the length of any path to
    it. *)
Lemma exhausted_reaches (start : string) (s : State) (k : nat) (v : string) :
  exploring start s -> queue (this s) = [] ->
  hops start k v -> Z.of_nat k <= maxDepth (this s) ->
  exists e, e ∈ fetches s /\ e_url e = v /\ depth e <= Z.of_nat k.
Proof.
  intros (_ & _ & _ & [Hst Hlk]) Hq Hh. induction Hh as [|k u v Hh IH Hl]; intros Hk.
  - destruct Hst as [Hin|[Hdeep|He]]; [|lia|done].
    rewrite Hq in Hin. by apply elem_of_nil in Hin.
  - destruct IH as (e & He & Hu & Hd); [lia|]. subst u.
    destruct (Hlk e v He Hl) as [Hin|[Hdeep|(e' & He' & Hu' & Hd')]].
    + rewrite Hq in Hin. by apply elem_of_nil in Hin.
    + lia.
    + exists e'. split_and!; [done..|lia].
Qed.

(** X8.  With a negative [maxDepth] the first call on a new engine
    fetches nothing, marks nothing as seen and returns the empty
    sequence, whatever [maxPages] is. *)
Theorem X8_negative_maxDepth_crawls_nothing (md mp : option Z) (startUrl : string) :
  default 2 md < 0 ->
  (crawl startUrl (new_State md mp)).2 = Return [] /\
  fetches (crawl startUrl (new_State md mp)).1 = [] /\
  seen (this (crawl startUrl (new_State md mp)).1) = ∅.
Proof.
  intros Hneg.
  assert (G : forall s' o,
             loop_state (addToQueue startUrl None (new_State md mp)).1 s' o ->
             fetches s' = [] /\ pages (this s') = [] /\ seen (this s') = ∅).
  { intros s' o Hl.
    destruct (first_call_loop_state md mp startUrl s' o Hl)
      as (((_ & Hf & Hsn) & _ & [Hd _] & _) & Hmd & _).
    assert (Hfs : fetches s' = []).
    { destruct (fetches s') as [|e fs]; [done|].
      apply Forall_cons in Hd as [[Hle (k & Hk & _)] _]. lia. }
    rewrite Hfs in Hf. symmetry in Hf. apply fmap_nil_inv in Hf.
    split_and!; [done..|].
    apply elem_of_equiv_empty_L. intros u Hu. apply Hsn in Hu.
    rewrite Hf in Hu. by apply elem_of_nil in Hu. }
  destruct (crawl startUrl (new_State md mp)) as [s' [ps|]] eqn:Hr; simpl.
  - apply crawl_returns in Hr as (-> & _ & ->).
    destruct (G _ _ (proj1 (crawl_loop_final _))) as (Hf & Hp & Hs).
    by rewrite Hf, Hp, Hs.
  - exfalso. apply crawl_throws in Hr. destruct (G _ _ Hr) as (Hf & _ & _).
    apply loop_state_throw in Hr as (s1 & e & rest & _ & _ & -> & _).
    simpl in Hf. by apply app_nil in Hf as [_ ?].
Qed.

(** X9.  With [maxDepth = 0] and [maxPages >= 1], when the first call on
    a new engine returns, it returns exactly the page of the start
    address, fetched once: the links of that page are never followed. *)
Theorem X9_maxDepth_zero_crawls_only_the_seed
    (md mp : option Z) (startUrl : string) (s' : State) (ps : list Page) :
  default 2 md = 0 -> 1 <= default 1 mp ->
  crawl startUrl (new_State md mp) = (s', Return ps) ->
  ps = [mkPage startUrl (parseHtml (fetchPage startUrl))] /\
  fetches s' = [mkEntry startUrl 0].
Proof.
  intros Hmd Hmp Hr.
  apply first_call_returns in Hr
    as (((Hnd & Hf & _) & _ & [Hd _] & [Hst _]) & Hcf & Hmd' & Hmp' & -> & Hg).
  assert (Hall : Forall (fun e => e = mkEntry startUrl 0) (fetches s')).
  { eapply Forall_impl; [exact Hd|]. intros [u d] [Hle (k & Hk & Hh)]. simpl in *.
    assert (k = 0%nat) as -> by lia. apply hops_zero in Hh. subst u. f_equal. lia. }
  assert (Hfs : fetches s' = [mkEntry startUrl 0]).
  { rewrite <- Hf in Hnd. apply NoDup_fmap_1 in Hnd.
    destruct (fetches s') as [|a [|b l]] eqn:Hfe.
    - exfalso. simpl in Hf. symmetry in Hf. apply fmap_nil_inv in Hf.
      apply guard_false in Hg as [Hq|Hfull]; [|rewrite Hf in Hfull; simpl in Hfull; lia].
      destruct Hst as [Hin|[Hdeep|(e & He & _)]].
      + rewrite Hq in Hin. by apply elem_of_nil in Hin.
      + lia.
      + rewrite Hfe in He. by apply elem_of_nil in He.
    - apply Forall_cons in Hall as [-> _]. done.
    - exfalso. apply Forall_cons in Hall as [-> Hall].
      apply Forall_cons in Hall as [-> _].
      apply NoDup_cons in Hnd as [Hn _]. apply Hn. by left. }
  split; [|done].
  rewrite Hfs in Hf. simpl in Hf. unfold content_faithful in Hcf.
  destruct (pages (this s')) as [|[u c] [|q l]]; simpl in Hf; try discriminate.
  injection Hf as Hu. apply Forall_cons in Hcf as [Hcf _]. simpl in Hcf. congruence.
Qed.

(** X10.  When the first call on a new engine returns fewer than
    [maxPages] pages, it has exhausted the frontier, and the addresses of
    the returned pages are exactly the addresses within [maxDepth] link
    hops of the start address. *)
Theorem X10_exhaustive_crawl_is_complete
    (md mp : option Z) (startUrl : string) (s' : State) (ps : list Page) :
  crawl startUrl (new_State md mp) = (s', Return ps) ->
  Z.of_nat (length ps) < default 1 mp ->
  queue (this s') = [] /\
  (forall v, v ∈ url <$> ps <->
             exists k : nat, Z.of_nat k <= default 2 md /\ hops startUrl k v).
Proof.
  intros Hr Hlt.
  apply first_call_returns in Hr as (Hex & _ & Hmd & Hmp & -> & Hg).
  assert (Hq : queue (this s') = []).
  { apply guard_false in Hg as [Hq|Hfull]; [done|lia]. }
  split; [done|].
  pose proof Hex as ((_ & Hf & _) & _ & [Hd _] & _).
  intros v. rewrite <- Hf. split.
  - intros Hv. apply list_elem_of_fmap in Hv as (e & -> & He).
    rewrite Forall_forall in Hd. destruct (Hd e He) as (Hle & k & Hk & Hh).
    exists k. split; [lia|done].
  - intros (k & Hk & Hh).
    destruct (exhausted_reaches startUrl s' k v Hex Hq Hh) as (e & He & <- & _); [lia|].
    by apply list_elem_of_fmap_2.
Qed.

(** X11.  When the first call on a new engine returns fewer than
    [maxPages] pages, every page was fetched at its least distance from
    the start address: the depth of a fetched entry is at most the length
    of any path of links leading to its address. *)
Theorem X11_exhaustive_crawl_depths_are_shortest
    (md mp : option Z) (startUrl : string) (s' : State) (ps : list Page) :
  crawl startUrl (new_State md mp) = (s', Return ps) ->
  Z.of_nat (length ps) < default 1 mp ->
  forall e k, e ∈ fetches s' -> hops startUrl k (e_url e) ->
              depth e <= Z.of_nat k /\
              exists k0 : nat, depth e = Z.of_nat k0 /\ hops startUrl k0 (e_url e).
Proof.
  intros Hr Hlt e k He Hh.
  apply first_call_returns in Hr as (Hex & _ & Hmd & Hmp & -> & Hg).
  assert (Hq : queue (this s') = []).
  { apply guard_false in Hg as [Hq|Hfull]; [done|lia]. }
  pose proof Hex as ((Hnd & Hf & _) & _ & [Hd _] & _).
  rewrite Forall_forall in Hd. destruct (Hd e He) as (Hle & Hpath).
  split; [|exact Hpath].
  destruct (decide (Z.of_nat k <= maxDepth (this s'))) as [Hk|Hk]; [|lia].
  destruct (exhausted_reaches startUrl s' k (e_url e) Hex Hq Hh Hk) as (e' & He' & Hu & Hd').
  rewrite <- Hf in Hnd.
  by rewrite <- (same_address_same_entry (fetches s') e' e Hnd He' He Hu).
Qed.

End FirstCallClaims.

(** ** [seed] end to end *)

Section SeedEndToEnd.
Context {env : Collaborators}.


(** X13.  With [maxPages = 0], [seed] yields no document: it returns the
    empty sequence when the splitter can be constructed from the merged
    fields, and throws when it cannot. *)
Theorem X13_seed_maxPages_zero
    (startUrl : string) (md : option Z) (so : option (gmap string JsValue)) :
  seed startUrl md (Some 0) so
  = match RecursiveCharacterTextSplitter (splitterFields so) with
    | Return _ => Return []
    | Throw => Throw
    end.
Proof.
  unfold seed. cbv zeta.
  change (mkState (seed_crawler md (Some 0)) [])
    with (new_State (Some (default 2 md)) (Some 0)).
  rewrite crawl_eq. cbv zeta. rewrite crawl_loop_done by reflexivity. simpl.
  by destruct (RecursiveCharacterTextSplitter _).
Qed.

End SeedEndToEnd.

(** ** More about [sliceIntoChunks] *)

Section MoreSliceClaims.
Context {T : Type}.
Implicit Types (arr : list T) (chunkSize : Z).

Lemma ceil_div_floor (a b : Z) : 1 <= b -> ceil_div a b = (a + b - 1) / b.
Proof.
  intros Hb. unfold ceil_div.
  pose proof (Z.div_mod (- a) b ltac:(lia)) as Hdm.
  pose proof (Z.mod_pos_bound (- a) b ltac:(lia)) as Hm.
  apply (Z.div_unique_pos _ _ _ (b - 1 - (- a) mod b)); lia.
Qed.

(** X15.  For an integer [chunkSize >= 1], [sliceIntoChunks] returns
    [floor((length + chunkSize - 1) / chunkSize)] chunks, and the element
    at index [j] of the array is the element at index [j mod chunkSize]
    of the chunk at index [j div chunkSize]. *)
Theorem X15_sliceIntoChunks_count_and_index arr chunkSize :
  1 <= chunkSize ->
  exists chunks,
    sliceIntoChunks arr chunkSize = Return chunks /\
    Z.of_nat (length chunks) = (Z.of_nat (length arr) + chunkSize - 1) / chunkSize /\
    (forall j x, arr !! j = Some x ->
       exists c, chunks !! (j / Z.to_nat chunkSize)%nat = Some c /\
                 c !! (j mod Z.to_nat chunkSize)%nat = Some x).
Proof.
  intros Hc. eexists. split; [by apply sliceIntoChunks_windows|].
  pose proof (ceil_div_bounds (Z.of_nat (length arr)) chunkSize ltac:(lia) Hc)
    as (Hn0 & Hup & Hlow).
  split.
  - rewrite length_fmap, length_seq, <- ceil_div_floor by done. lia.
  - intros j x Hj.
    set (k := Z.to_nat chunkSize). assert (Hk : (0 < k)%nat) by (subst k; lia).
    set (n := Z.to_nat (ceil_div (Z.of_nat (length arr)) chunkSize)).
    pose proof (lookup_lt_Some _ _ _ Hj) as Hlt.
    assert (Hi : (j / k < n)%nat).
    { apply Nat.Div0.div_lt_upper_bound. subst k n. nia. }
    eexists. split.
    + rewrite list_lookup_fmap, lookup_seq_lt by done. simpl. reflexivity.
    + rewrite lookup_take_lt by (apply Nat.mod_upper_bound; lia).
      rewrite lookup_drop, <- Hj. f_equal.
      pose proof (Nat.div_mod_eq j k). lia.
Qed.

(** X16.  A negative [chunkSize] silently gives no chunk at all,
    whatever the array; [chunkSize = 0] makes a non-empty array throw;
    the empty array gives no chunk for every [chunkSize]. *)
Theorem X16_sliceIntoChunks_nonpositive_chunkSize arr chunkSize :
  (chunkSize < 0 -> sliceIntoChunks arr chunkSize = Return []) /\
  (chunkSize = 0 -> arr <> [] -> sliceIntoChunks arr chunkSize = Throw) /\
  sliceIntoChunks (@nil T) chunkSize = Return [].
Proof.
  split_and!.
  - intros Hneg. unfold sliceIntoChunks.
    destruct (Z.eqb_spec chunkSize 0) as [?|_]; [lia|].
    rewrite seqZ_nil; [done|]. unfold ceil_div.
    assert (0 <= - Z.of_nat (length arr) / chunkSize); [|lia].
    rewrite <- Z.div_opp_opp by lia. apply Z.div_pos; lia.
  - intros -> Hne. unfold sliceIntoChunks. simpl.
    destruct arr; [done|reflexivity].
  - unfold sliceIntoChunks. simpl.
    destruct (Z.eqb_spec chunkSize 0); [done|].
    unfold ceil_div. simpl. reflexivity.
Qed.

(** X17.  A non-empty array no longer than [chunkSize] comes back as one
    chunk, itself. *)
Theorem X17_sliceIntoChunks_short_array arr chunkSize :
  arr <> [] -> Z.of_nat (length arr) <= chunkSize ->
  sliceIntoChunks arr chunkSize = Return [arr].
Proof.
  intros Hne Hle.
  assert (Hlen : (0 < length arr)%nat) by (destruct arr; [done|simpl; lia]).
  rewrite sliceIntoChunks_windows by lia.
  pose proof (ceil_div_bounds (Z.of_nat (length arr)) chunkSize ltac:(lia) ltac:(lia))
    as (Hn0 & Hup & Hlow).
  assert (ceil_div (Z.of_nat (length arr)) chunkSize = 1) as -> by nia.
  simpl. rewrite drop_0, take_ge by lia. reflexivity.
Qed.

End MoreSliceClaims.

(** ** [truncateStringByBytes] *)

Section TruncateClaims.
Context {codec : TextCodec}.

Lemma js_slice_from_0 {T} (arr : list T) (n : Z) :
  js_slice arr 0 n
  = if n <? 0 then take (length arr - Z.to_nat (- n)) arr else take (Z.to_nat n) arr.
Proof.
  unfold js_slice. cbv zeta. change (0 <? 0) with false. cbv iota.
  rewrite (Z.min_l 0) by lia. rewrite Z.sub_0_r. simpl. rewrite drop_0.
  destruct (Z.ltb_spec n 0).
  - f_equal. lia.
  - destruct (decide (n <= Z.of_nat (length arr))).
    + by rewrite Z.min_l.
    + rewrite Z.min_r by lia. rewrite !take_ge by lia. done.
Qed.

(** X18.  For [bytes >= 0], [truncateStringByBytes] decodes the first
    [bytes] bytes of the encoding of the string, all of them when there
    are no more than [bytes]; so a string that the codec decodes back
    from its encoding is returned unchanged when it has no more than
    [bytes] bytes. *)
Theorem X18_truncate_keeps_a_byte_prefix (str : string) (bytes : Z) :
  0 <= bytes ->
  truncateStringByBytes str bytes
  = TextDecoder_decode (take (Z.to_nat bytes) (TextEncoder_encode str)) /\
  (Z.of_nat (length (TextEncoder_encode str)) <= bytes ->
   truncateStringByBytes str bytes = TextDecoder_decode (TextEncoder_encode str) /\
   (TextDecoder_decode (TextEncoder_encode str) = str ->
    truncateStringByBytes str bytes = str)).
Proof.
  intros Hb. unfold truncateStringByBytes. rewrite js_slice_from_0.
  destruct (Z.ltb_spec bytes 0); [lia|]. split; [done|].
  intros Hlen. rewrite take_ge by lia. split; [done|]. by intros ->.
Qed.

(** X19.  A negative [bytes] counts from the end: the last [-bytes]
    bytes of the encoding are dropped and the rest is decoded, which is
    the empty byte sequence when the encoding has no more than [-bytes]
    bytes. *)
Theorem X19_truncate_negative_counts_from_the_end (str : string) (bytes : Z) :
  bytes < 0 ->
  truncateStringByBytes str bytes
  = TextDecoder_decode
      (take (length (TextEncoder_encode str) - Z.to_nat (- bytes))
            (TextEncoder_encode str)) /\
  (Z.of_nat (length (TextEncoder_encode str)) <= - bytes ->
   truncateStringByBytes str bytes = TextDecoder_decode []).
Proof.
  intros Hb. unfold truncateStringByBytes. rewrite js_slice_from_0.
  destruct (Z.ltb_spec bytes 0); [|lia]. split; [done|].
  intros Hlen.
  replace (length (TextEncoder_encode str) - Z.to_nat (- bytes))%nat with 0%nat by lia.
  reflexivity.
Qed.

End TruncateClaims.

(** ** The further properties at work *)

Section FurtherOnTheDemoWeb.
Import Demo.
#[local] Existing Instance demo.

Lemma X2_page_content_is_converted_fetch_witness :
  engine_state None (Some 3) (new_State None (Some 3)) /\
  content (mkPage "c" "Not Found <a b>") = parseHtml (fetchPage "c").
Proof.
  split; [constructor|].
  apply (proj2 (X2_page_content_is_converted_fetch None (Some 3)
                  (new_State None (Some 3)) "a" (engine_new None (Some 3)))
               (crawl "a" (new_State None (Some 3))).1
               [mkPage "a" "<a b><a c><a a>"; mkPage "b" "<a d><a a>";
                mkPage "c" "Not Found <a b>"]).
  - vm_compute. reflexivity.
  - do 2 right. left.
Defined.

Lemma X3_crawl_stops_exhausted_or_full_witness :
  crawl "a" (new_State None (Some 2))
  = ((crawl "a" (new_State None (Some 2))).1,
     Return [mkPage "a" "<a b><a c><a a>"; mkPage "b" "<a d><a a>"]) /\
  (queue (this (crawl "a" (new_State None (Some 2))).1) = [] \/
   maxPages (this (new_State None (Some 2)))
   <= Z.of_nat (length [mkPage "a" "<a b><a c><a a>"; mkPage "b" "<a d><a a>"])).
Proof.
  assert (H : crawl "a" (new_State None (Some 2))
              = ((crawl "a" (new_State None (Some 2))).1,
                 Return [mkPage "a" "<a b><a c><a a>"; mkPage "b" "<a d><a a>"]))
    by (vm_compute; reflexivity).
  split; [exact H|].
  exact (X3_crawl_stops_exhausted_or_full "a" _ _ _ H).
Defined.

Lemma X5_full_engine_returns_old_pages_witness :
  maxPages (this (crawl "a" (new_State None None)).1)
  <= Z.of_nat (length (pages (this (crawl "a" (new_State None None)).1))) /\
  (crawl "b" (crawl "a" (new_State None None)).1).2
  = Return (pages (this (crawl "a" (new_State None None)).1)).
Proof.
  assert (H : maxPages (this (crawl "a" (new_State None None)).1)
              <= Z.of_nat (length (pages (this (crawl "a" (new_State None None)).1))))
    by (vm_compute; discriminate).
  split; [exact H|].
  destruct (X5_full_engine_returns_old_pages "b" _ H) as [Hc _].
  rewrite Hc. reflexivity.
Defined.

Lemma X8_negative_maxDepth_crawls_nothing_witness :
  default 2 (Some (-1)) < 0 /\
  (crawl "a" (new_State (Some (-1)) (Some 3))).2 = Return [].
Proof.
  split; [simpl; lia|].
  apply (X8_negative_maxDepth_crawls_nothing (Some (-1)) (Some 3) "a"). simpl. lia.
Defined.

Lemma X9_maxDepth_zero_crawls_only_the_seed_witness :
  crawl "a" (new_State (Some 0) (Some 3))
  = ((crawl "a" (new_State (Some 0) (Some 3))).1, Return [mkPage "a" "<a b><a c><a a>"]) /\
  fetches (crawl "a" (new_State (Some 0) (Some 3))).1 = [mkEntry "a" 0].
Proof.
  assert (H : crawl "a" (new_State (Some 0) (Some 3))
              = ((crawl "a" (new_State (Some 0) (Some 3))).1,
                 Return [mkPage "a" "<a b><a c><a a>"]))
    by (vm_compute; reflexivity).
  split; [exact H|].
  apply (X9_maxDepth_zero_crawls_only_the_seed (Some 0) (Some 3) "a" _ _
           eq_refl ltac:(simpl; lia) H).
Defined.

Lemma X10_exhaustive_crawl_is_complete_witness :
  crawl "a" (new_State (Some 2) (Some 10))
  = ((crawl "a" (new_State (Some 2) (Some 10))).1,
     Return [mkPage "a" "<a b><a c><a a>"; mkPage "b" "<a d><a a>";
             mkPage "c" "Not Found <a b>"; mkPage "d" ""]) /\
  queue (this (crawl "a" (new_State (Some 2) (Some 10))).1) = [] /\
  ("d" ∈ ["a"; "b"; "c"; "d"] <->
   exists k : nat, Z.of_nat k <= default 2 (Some 2) /\ hops "a" k "d").
Proof.
  assert (H : crawl "a" (new_State (Some 2) (Some 10))
              = ((crawl "a" (new_State (Some 2) (Some 10))).1,
                 Return [mkPage "a" "<a b><a c><a a>"; mkPage "b" "<a d><a a>";
                         mkPage "c" "Not Found <a b>"; mkPage "d" ""]))
    by (vm_compute; reflexivity).
  split; [exact H|].
  destruct (X10_exhaustive_crawl_is_complete (Some 2) (Some 10) "a" _ _ H
              ltac:(simpl; lia)) as [Hq Hv].
  split; [exact Hq|exact (Hv "d")].
Defined.

Lemma X11_exhaustive_crawl_depths_are_shortest_witness :
  crawl "a" (new_State (Some 2) (Some 10))
  = ((crawl "a" (new_State (Some 2) (Some 10))).1,
     Return [mkPage "a" "<a b><a c><a a>"; mkPage "b" "<a d><a a>";
             mkPage "c" "Not Found <a b>"; mkPage "d" ""]) /\
  forall e k, e ∈ fetches (crawl "a" (new_State (Some 2) (Some 10))).1 ->
              hops "a" k (e_url e) ->
              depth e <= Z.of_nat k /\
              exists k0 : nat, depth e = Z.of_nat k0 /\ hops "a" k0 (e_url e).
Proof.
  assert (H : crawl "a" (new_State (Some 2) (Some 10))
              = ((crawl "a" (new_State (Some 2) (Some 10))).1,
                 Return [mkPage "a" "<a b><a c><a a>"; mkPage "b" "<a d><a a>";
                         mkPage "c" "Not Found <a b>"; mkPage "d" ""]))
    by (vm_compute; reflexivity).
  split; [exact H|].
  exact (X11_exhaustive_crawl_depths_are_shortest (Some 2) (Some 10) "a" _ _ H
           ltac:(simpl; lia)).
Defined.

End FurtherOnTheDemoWeb.

Section FurtherOnSeedAndUtils.
Import Demo.
#[local] Existing Instance demo.
#[local] Existing Instance ByteCodec.codec.


Lemma X15_sliceIntoChunks_count_and_index_witness :
  1 <= 3 /\
  exists chunks,
    sliceIntoChunks [10; 20; 30; 40; 50; 60; 70] 3 = Return chunks /\
    Z.of_nat (length chunks)
    = (Z.of_nat (length [10; 20; 30; 40; 50; 60; 70]) + 3 - 1) / 3 /\
    (forall j x, [10; 20; 30; 40; 50; 60; 70] !! j = Some x ->
       exists c, chunks !! (j / Z.to_nat 3)%nat = Some c /\
                 c !! (j mod Z.to_nat 3)%nat = Some x).
Proof.
  split; [lia|].
  apply (X15_sliceIntoChunks_count_and_index [10; 20; 30; 40; 50; 60; 70] 3). lia.
Defined.

Lemma X16_sliceIntoChunks_nonpositive_chunkSize_witness :
  -2 < 0 /\ sliceIntoChunks [1; 2; 3] (-2) = Return [] /\
  [1; 2; 3] <> [] /\ sliceIntoChunks [1; 2; 3] 0 = Throw.
Proof.
  assert (H1 : -2 < 0) by lia.
  assert (H2 : [1; 2; 3] <> ([] : list Z)) by discriminate.
  split; [exact H1|].
  split; [exact (proj1 (X16_sliceIntoChunks_nonpositive_chunkSize [1; 2; 3] (-2)) H1)|].
  split; [exact H2|].
  exact (proj1 (proj2 (X16_sliceIntoChunks_nonpositive_chunkSize [1; 2; 3] 0)) eq_refl H2).
Defined.

Lemma X17_sliceIntoChunks_short_array_witness :
  [1; 2; 3] <> ([] : list Z) /\ Z.of_nat (length [1; 2; 3]) <= 5 /\
  sliceIntoChunks [1; 2; 3] 5 = Return [[1; 2; 3]].
Proof.
  assert (H1 : [1; 2; 3] <> ([] : list Z)) by discriminate.
  assert (H2 : Z.of_nat (length [1; 2; 3]) <= 5) by (simpl; lia).
  split; [exact H1|]. split; [exact H2|].
  exact (X17_sliceIntoChunks_short_array [1; 2; 3] 5 H1 H2).
Defined.

Lemma X18_truncate_keeps_a_byte_prefix_witness :
  0 <= 3 /\
  truncateStringByBytes "crawler" 3 = "cra" /\
  Z.of_nat (length (TextEncoder_encode "crawler")) <= 7 /\
  TextDecoder_decode (TextEncoder_encode "crawler") = "crawler" /\
  truncateStringByBytes "crawler" 7 = "crawler".
Proof.
  assert (H0 : 0 <= 3) by lia.
  assert (H1 : Z.of_nat (length (TextEncoder_encode "crawler")) <= 7) by (simpl; lia).
  assert (H2 : TextDecoder_decode (TextEncoder_encode "crawler") = "crawler")
    by reflexivity.
  split; [exact H0|].
  split; [exact (proj1 (X18_truncate_keeps_a_byte_prefix "crawler" 3 H0))|].
  split; [exact H1|]. split; [exact H2|].
  exact (proj2 (proj2 (X18_truncate_keeps_a_byte_prefix "crawler" 7 ltac:(lia)) H1) H2).
Defined.

Lemma X19_truncate_negative_counts_from_the_end_witness :
  -2 < 0 /\ truncateStringByBytes "crawler" (-2) = "crawl" /\
  -9 < 0 /\ Z.of_nat (length (TextEncoder_encode "crawler")) <= - (-9) /\
  truncateStringByBytes "crawler" (-9) = "".
Proof.
  assert (H1 : -2 < 0) by lia.
  assert (H2 : -9 < 0) by lia.
  assert (H3 : Z.of_nat (length (TextEncoder_encode "crawler")) <= - (-9))
    by (simpl; lia).
  split; [exact H1|].
  split; [exact (proj1 (X19_truncate_negative_counts_from_the_end "crawler" (-2) H1))|].
  split; [exact H2|]. split; [exact H3|].
  exact (proj2 (X19_truncate_negative_counts_from_the_end "crawler" (-9) H2) H3).
Defined.

End FurtherOnSeedAndUtils.
